(** * XManager codelab: sweep expansion, entry-point wrapper, experiment layer

    A shallow embedding of the code of the XManager codelab (the notebook
    [codelab.ipynb], the CAIP wrapper script and the executor notes) and
    of the orchestration layer it drives, with the properties proved
    about them.

    Part I holds the definitions, one module per component; Part II holds
    the lemmas and theorems. *)

From Stdlib Require Import ZArith QArith Lia Ascii.
From stdpp Require Import base option list strings gmap.

Local Open Scope list_scope.
Set Warnings "-register-all".

(** * Part I. Definitions *)

(** ** Results of fallible operations *)

Inductive result (E A : Type) : Type :=
| Ok (a : A)
| Err (e : E).
Arguments Ok {E A} a.
Arguments Err {E A} e.

(** ** Python values, dicts and [itertools.product] *)

Module Py.

(** The data the notebook manipulates.  A float is kept as the decimal
    literal that denotes it: the notebook never computes with floats, it
    only stores and passes them on. *)
Inductive value : Type :=
| VNone
| VInt (n : Z)
| VFloat (lit : string)
| VStr (s : string)
| VList (xs : list value)
| VDict (kvs : list (string * value)).

(** A [dict] with string keys: the items in insertion order.  A key
    occurs at most once ([dict_wf]). *)
Definition dict (V : Type) : Type := list (string * V).

Definition keys {V} (d : dict V) : list string := map fst d.
Definition values {V} (d : dict V) : list V := map snd d.
Definition dict_wf {V} (d : dict V) : Prop := List.NoDup (keys d).

(** [d[k] = v]: an existing key keeps its position and takes the new
    value, a new key goes last. *)
Fixpoint dict_set {V} (k : string) (v : V) (d : dict V) : dict V :=
  match d with
  | [] => [(k, v)]
  | (k', v') :: d' =>
      if String.eqb k k' then (k, v) :: d'
      else (k', v') :: dict_set k v d'
  end.

(** [dict(pairs)]: the pairs are inserted from left to right. *)
Definition dict_of_pairs {V} (pairs : list (string * V)) : dict V :=
  fold_left (fun d kv => dict_set (fst kv) (snd kv) d) pairs [].

(** [zip(a, b)] stops at the shorter argument. *)
Fixpoint zip {A B} (a : list A) (b : list B) : list (A * B) :=
  match a, b with
  | x :: a', y :: b' => (x, y) :: zip a' b'
  | _, _ => []
  end.

(** [itertools.product] over the argument pools, as the library documents it:
<<
    result = [[]]
    for pool in pools:
        result = [x+[y] for x in result for y in pool]
>>
*)
Definition product_step {V} (result : list (list V)) (pool : list V)
  : list (list V) :=
  flat_map (fun x => map (fun y => x ++ [y]) pool) result.

Definition product {V} (pools : list (list V)) : list (list V) :=
  fold_left product_step pools [[]].

End Py.

(** ** The hyperparameter sweep of the notebook *)

Module Sweep.
Import Py.

(** [list(dict(zip(inputs, x)) for x in itertools.product( *inputs.values()))]:
    iterating a dict yields its keys, and the starred argument passes
    its values as the pools. *)
Definition expand {V} (inputs : dict (list V)) : list (dict V) :=
  map (fun x => dict_of_pairs (zip (keys inputs) x)) (product (values inputs)).

(** The cell "Defining the hyperparameters". *)
Definition inputs : dict (list value) :=
  [ ("batch_size", [VInt 64; VInt 128]);
    ("learning_rate", [VFloat "0.01"; VFloat "0.001"]) ].

Definition hyperparameters : list (dict value) := expand inputs.

(** The expansion of the end-to-end cell.  The loop header
    [for (bs, lr) in ...] unpacks every tuple into exactly two names and
    raises [ValueError] on any other length. *)
Inductive unpack_error : Type := ValueError.

Definition unpack2 {V} (x : list V) : result unpack_error (V * V) :=
  match x with
  | [bs; lr] => Ok (bs, lr)
  | _ => Err ValueError
  end.

Fixpoint for_each {E A B} (f : A -> result E B) (xs : list A)
  : result E (list B) :=
  match xs with
  | [] => Ok []
  | x :: xs' =>
      match f x with
      | Err e => Err e
      | Ok y =>
          match for_each f xs' with
          | Err e => Err e
          | Ok ys => Ok (y :: ys)
          end
      end
  end.

(** [list(dict([(k1, bs), (k2, lr)]) for (bs, lr) in itertools.product(l1, l2))] *)
Definition expand_pair {V} (k1 k2 : string) (l1 l2 : list V)
  : result unpack_error (list (dict V)) :=
  for_each
    (fun x =>
       match unpack2 x with
       | Err e => Err e
       | Ok (bs, lr) => Ok (dict_of_pairs [(k1, bs); (k2, lr)])
       end)
    (product [l1; l2]).

Definition batch_sizes : list value := [VInt 64; VInt 128].
Definition learning_rates : list value := [VFloat "0.01"; VFloat "0.001"].

Definition trials : result unpack_error (list (dict value)) :=
  expand_pair "batch_size" "learning_rate" batch_sizes learning_rates.

End Sweep.

(** ** The CAIP wrapper script around the packaged entry point

<<
    python3 -c "import caip_utils; caip_utils.create_workerpool_address_env_vars_script('./map_xm_env_vars')"
    source ./map_xm_env_vars
    ARGS=($(python3 -c "import caip_utils; import sys; caip_utils.print_workerpool_address_args(sys.argv)" $@ | tr -d '[],'))
    ./entrypoint.sh ${ARGS[@]}
>>
*)

Module Wrapper.

(** The process environment. *)
Abbreviation environ := (gmap string string).

Definition tab : ascii := "009"%char.
Definition newline : ascii := "010"%char.

(** The default [IFS]: space, tab, newline. *)
Definition is_ifs (c : ascii) : bool :=
  Ascii.eqb c " " || Ascii.eqb c tab || Ascii.eqb c newline.

Definition flush (w : string) (ws : list string) : list string :=
  match w with
  | EmptyString => ws
  | _ => w :: ws
  end.

(** [fields s] scans [s]: the word that starts at the head of [s] (empty
    when [s] starts with a separator) and the words after it. *)
Fixpoint fields (s : string) : string * list string :=
  match s with
  | EmptyString => (EmptyString, [])
  | String c s' =>
      let '(w, ws) := fields s' in
      if is_ifs c then (EmptyString, flush w ws) else (String c w, ws)
  end.

(** Word splitting of an unquoted expansion: runs of [IFS] white space
    separate the words, none of which is empty. *)
Definition word_split (s : string) : list string :=
  let '(w, ws) := fields s in flush w ws.

(** [tr -d set]: every character of [set] is deleted. *)
Fixpoint tr_d (set : list ascii) (s : string) : string :=
  match s with
  | EmptyString => EmptyString
  | String c s' =>
      if existsb (Ascii.eqb c) set then tr_d set s'
      else String c (tr_d set s')
  end.

Definition deleted : list ascii := ["["; "]"; ","]%char.

(** Characters that are no separator, and characters [tr] keeps. *)
Definition no_ifs (c : ascii) : bool := negb (is_ifs c).
Definition kept (c : ascii) : bool := negb (existsb (Ascii.eqb c) deleted).

Fixpoint string_forallb (p : ascii -> bool) (s : string) : bool :=
  match s with
  | EmptyString => true
  | String c s' => p c && string_forallb p s'
  end.

(** A word is a pattern for pathname expansion when it holds one of
    [*], [?], [[]. *)
Definition is_glob (c : ascii) : bool :=
  existsb (Ascii.eqb c) ["*"; "?"; "["]%char.

Definition is_pattern (w : string) : bool :=
  negb (string_forallb (fun c => negb (is_glob c)) w).

Section Script.
(** What the file system makes of a word under pathname expansion. *)
Variable pathname_expansion : string -> list string.
(** The effect on the environment of sourcing the generated script
    [./map_xm_env_vars]. *)
Variable source_map_xm_env_vars : environ -> environ.
(** What [caip_utils.print_workerpool_address_args(sys.argv)] writes to
    its standard output, given [os.environ] and [sys.argv]. *)
Variable print_workerpool_address_args : environ -> list string -> string.

(** An unquoted expansion of a list of words ([$@], [${ARGS[@]}], the
    command substitution): each word is split, each resulting word
    undergoes pathname expansion. *)
Definition unquoted (words : list string) : list string :=
  flat_map (fun w => flat_map pathname_expansion (word_split w)) words.

(** The argument vector the script passes to [./entrypoint.sh], from
    the environment and the arguments it was started with. *)
Definition wrapped_entrypoint (env : environ) (args : list string)
  : list string :=
  let env' := source_map_xm_env_vars env in
  let sys_argv := "-c" :: unquoted args in
  let stdout := print_workerpool_address_args env' sys_argv in
  let ARGS := unquoted [tr_d deleted stdout] in
  unquoted ARGS.

(** The script forwards [args] unmodified when the entry point receives
    them as they are, in order, followed only by appended flags. *)
Definition forwards_unmodified (env : environ) (args : list string) : Prop :=
  exists flags, wrapped_entrypoint env args = args ++ flags.

End Script.

(** [' '.join(ws)] *)
Fixpoint unwords (ws : list string) : string :=
  match ws with
  | [] => EmptyString
  | w :: ws' =>
      match ws' with
      | [] => w
      | _ => w +:+ String " " (unwords ws')
      end
  end.

(** Modelled from the spec: [caip_utils.print_workerpool_address_args]
    is not among the sources.  The spec has the shim map the
    backend-assigned address variables into flags appended to the entry
    point's invocation: the helper prints, on one line, the arguments
    that follow the program name and then the flags [address_flags]
    derives from the environment. *)
Definition print_args_then_flags (address_flags : environ -> list string)
    (env : environ) (sys_argv : list string) : string :=
  unwords (tail sys_argv ++ address_flags env) +:+ String newline EmptyString.

(** What pathname expansion makes of a word that is no pattern, in any
    directory, and of a pattern that no file name of the directory
    matches: the word itself.  It is used below only at such words. *)
Definition no_match (w : string) : list string := [w].

(** The pattern characters that [tr] leaves in the output of the helper. *)
Definition is_wild (c : ascii) : bool :=
  existsb (Ascii.eqb c) ["*"; "?"]%char.

Definition no_wild (c : ascii) : bool := negb (is_wild c).

(** A word that none of the script's expansions and filters touches:
    not empty, free of white space, of the deleted characters and of
    pattern characters. *)
Definition plain_char (c : ascii) : bool :=
  negb (is_ifs c) && negb (existsb (Ascii.eqb c) deleted) && negb (is_glob c).

Definition plain (w : string) : bool :=
  negb (String.eqb w EmptyString) && string_forallb plain_char w.

Definition not_empty (w : string) : bool := negb (String.eqb w EmptyString).

End Wrapper.

(** ** Job requirements *)

Module Requirements.

(** The accelerator types the executor notes list as supported. *)
Inductive accelerator : Type :=
| P100 | V100 | P4 | T4 | A100 | TPU_V2 | TPU_V3.

#[global] Instance accelerator_eq_dec : EqDecision accelerator.
Proof. solve_decision. Defined.

Definition accelerators : list accelerator :=
  [P100; V100; P4; T4; A100; TPU_V2; TPU_V3].

Definition is_tpu (k : accelerator) : bool :=
  match k with
  | TPU_V2 | TPU_V3 => true
  | _ => false
  end.

(** [xm.JobRequirements(cpu=.., ram=.., T4=..)]: a quantity for each
    resource kind that the keyword arguments set.  The number of vCPUs
    is a rational here; only its sign is ever looked at. *)
Record JobRequirements : Type := {
  cpu : option Q;
  ram : option Z;
  accelerator_count : accelerator -> option Z
}.

Inductive requirement_error : Type :=
| InvalidRequirement
| ConflictingRequirement.

Section Validation.
(** The counts a backend declares valid for the accelerator kinds other
    than the TPUs; the material does not give them. *)
Variable gpu_valid_count : accelerator -> Z -> bool.

(** "for [TPU_V2] and [TPU_V3] the only currently supported count
    is 8" *)
Definition valid_count (k : accelerator) (n : Z) : bool :=
  if is_tpu k then (n =? 8)%Z else gpu_valid_count k n.

Definition negative_quantity (r : JobRequirements) : bool :=
  match cpu r with Some q => negb (Qle_bool 0 q) | None => false end
  || match ram r with Some n => (n <? 0)%Z | None => false end
  || existsb
       (fun k => match accelerator_count r k with
                 | Some n => (n <? 0)%Z
                 | None => false
                 end)
       accelerators.

Definition nonzero_kinds (r : JobRequirements) : list accelerator :=
  List.filter
    (fun k => match accelerator_count r k with
              | Some n => negb (n =? 0)%Z
              | None => false
              end)
    accelerators.

Definition counts_valid (r : JobRequirements) : bool :=
  forallb
    (fun k => match accelerator_count r k with
              | Some n => valid_count k n
              | None => true
              end)
    accelerators.

(** Modelled from the spec: [JobRequirements.validate] is not among the
    sources.  It "fails with [InvalidRequirement] when quantities are
    negative, when more than one accelerator kind is set (unless the
    target executor explicitly allows heterogeneous requests), or when
    an accelerator count is outside its backend-declared valid set";
    it is a pure function of the requirements. *)
Definition validate (allow_heterogeneous : bool) (r : JobRequirements)
  : result requirement_error unit :=
  if negative_quantity r then Err InvalidRequirement
  else if negb allow_heterogeneous && (1 <? length (nonzero_kinds r))
  then Err InvalidRequirement
  else if negb (counts_valid r) then Err InvalidRequirement
  else Ok tt.

End Validation.

(** The accelerator kinds that the keyword arguments set. *)
Definition set_kinds (r : JobRequirements) : list accelerator :=
  List.filter
    (fun k => match accelerator_count r k with
              | Some _ => true
              | None => false
              end)
    accelerators.

(** Modelled from the spec: the requirements objects that it recognizes
    hold "[cpu] (vCPU count, float >= 0), [ram] (bytes, integer >= 0),
    and exactly one accelerator key from {P100, V100, P4, T4, A100,
    TPU_V2, TPU_V3} with an integer count". *)
Definition recognized (r : JobRequirements) : bool :=
  match cpu r with Some q => Qle_bool 0 q | None => true end
  && match ram r with Some n => (0 <=? n)%Z | None => true end
  && (length (set_kinds r) =? 1)%nat.

(** [xm.JobRequirements(k=n)] *)
Definition only (k : accelerator) (n : Z) : JobRequirements :=
  {| cpu := None; ram := None;
     accelerator_count := fun k' => if decide (k' = k) then Some n else None |}.

End Requirements.

(** ** The orchestration layer: executors, work units, experiments, registry *)

Module Xm.
Import Requirements.

(** Modelled from the spec: the status type is not among the sources.
    "Status: one of {Pending, Running, Completed, Failed}";
    "[is_completed] and [is_failed] are views over this state". *)
Inductive Status : Type := Pending | Running | Completed | Failed.

Definition is_completed (s : Status) : bool :=
  match s with Completed => true | _ => false end.

Definition is_failed (s : Status) : bool :=
  match s with Failed => true | _ => false end.

Inductive backend_tag : Type := Local | ManagedCloud | Kubernetes.

#[global] Instance backend_tag_eq_dec : EqDecision backend_tag.
Proof. solve_decision. Defined.

Record ExecutableSpec : Type := { path : string; entrypoint : string }.

Record ExecutorSpec : Type := {
  spec_backend : backend_tag;
  push_image_tag : option string
}.

Record Executable : Type := {
  packaged_from : ExecutableSpec;
  packaged_for : ExecutorSpec;
  artifact : string
}.

Record Executor : Type := {
  backend : backend_tag;
  requirements : JobRequirements;
  allow_heterogeneous : bool
}.

(** [xm.Job(executable=.., executor=.., args=..)] *)
Record Job : Type := {
  executable : Executable;
  executor : Executor;
  args : Py.dict Py.value
}.

Inductive launch_error : Type :=
| QuotaExceeded | InvalidConfiguration | TransientBackendError.

Inductive error : Type :=
| Requirement (e : requirement_error)
| PackagingError
| LaunchError (e : launch_error)
| RegistryUnavailable
| NotFound.

(** A launched job is known by the backend it runs on and a number. *)
Definition Handle : Type := backend_tag * nat.

(** The calls that go over the network. *)
Inductive request : Type :=
| BuildRequest (s : ExecutableSpec)
| LaunchRequest (b : backend_tag)
| QueryRequest (h : Handle).

(** *** Work units and experiments *)

Inductive launch_state : Type :=
| Enqueued
| Submitted (h : Handle)
| LaunchFailed (e : error).

(** Modelled from the spec: "WorkUnit: ... carries a unit index (unique
    within an Experiment, monotonically assigned) and a Status". *)
Record WorkUnit : Type := {
  unit_index : nat;
  unit_job : Job;
  unit_launch : launch_state;
  cached_status : Status
}.

(** [unit.get_status()] *)
Definition get_status (u : WorkUnit) : Status := cached_status u.

(** A direct write to the cached status. *)
Definition set_status (s : Status) (u : WorkUnit) : WorkUnit :=
  {| unit_index := unit_index u; unit_job := unit_job u;
     unit_launch := unit_launch u; cached_status := s |}.

Inductive phase : Type := Created | Active | Finalizing | Closed.

Record Experiment : Type := {
  experiment_id : nat;
  experiment_title : string;
  executables : list Executable;
  work_units : list WorkUnit;
  state : phase
}.

Definition new_experiment (id : nat) (title : string) : Experiment :=
  {| experiment_id := id; experiment_title := title; executables := [];
     work_units := []; state := Active |}.

Definition with_units (us : list WorkUnit) (e : Experiment) : Experiment :=
  {| experiment_id := experiment_id e;
     experiment_title := experiment_title e;
     executables := executables e; work_units := us; state := state e |}.

(** Modelled from the spec: "[add(job_or_group) -> WorkUnit]: assigns
    the next unit index, records the WorkUnit in Pending status, and
    enqueues the launch; returns immediately without waiting for launch
    completion".  Indices count from 0. *)
Definition add (j : Job) (e : Experiment) : WorkUnit * Experiment :=
  let u := {| unit_index := length (work_units e); unit_job := j;
              unit_launch := Enqueued; cached_status := Pending |} in
  (u, with_units (work_units e ++ [u]) e).

(** In a well-indexed experiment every unit sits at the position its
    index names. *)
Definition well_indexed (e : Experiment) : Prop :=
  unit_index <$> work_units e = seq 0 (length (work_units e)).

(** *** Registry *)

(** Modelled from the spec: the registry is not among the sources.
    "[create(title) -> id]: fails with [RegistryUnavailable] if the
    backing store cannot be reached"; allocation is monotonic; "[lookup]
    fails with [NotFound] for unknown ids".  The time stamp of a record
    is left out. *)
Record Registry : Type := {
  next_id : nat;
  records : gmap nat string;
  reachable : bool
}.

Definition create (title : string) (reg : Registry)
  : result error nat * Registry :=
  if reachable reg then
    (Ok (next_id reg),
     {| next_id := S (next_id reg);
        records := <[next_id reg := title]> (records reg);
        reachable := true |})
  else (Err RegistryUnavailable, reg).

Definition lookup (id : nat) (reg : Registry) : result error string :=
  if reachable reg then
    match records reg !! id with
    | Some t => Ok t
    | None => Err NotFound
    end
  else Err RegistryUnavailable.

(** Modelled from the spec: "[create_experiment(title)] allocates an id
    from the Registry and enters Created/Active atomically". *)
Definition create_experiment (title : string) (reg : Registry)
  : result error Experiment * Registry :=
  match create title reg with
  | (Ok id, reg') => (Ok (new_experiment id title), reg')
  | (Err e, reg') => (Err e, reg')
  end.





(** *** Executors and the backends behind them *)

Section Layer.
(** The job states of the backends, and how the executors read them. *)
Context {native : Type}.
Variable status_of_native : backend_tag -> native -> Status.
(** What a backend answers to a launch request: a refusal, or the state
    in which it takes the job on. *)
Variable accept : backend_tag -> Job -> result launch_error native.
(** What a build yields: the artifact, or nothing on failure. *)
Variable build : ExecutableSpec -> ExecutorSpec -> option string.
Variable gpu_valid_count : accelerator -> Z -> bool.

(** The backends' job tables and the log of the network calls made. *)
Record World : Type := {
  job_state : Handle -> native;
  next_job : nat;
  network_log : list request
}.

Definition send (rq : request) (w : World) : World :=
  {| job_state := job_state w; next_job := next_job w;
     network_log := network_log w ++ [rq] |}.

(** A backend moves a job to another state. *)
Definition move (h : Handle) (s : native) (w : World) : World :=
  {| job_state := fun h' => if decide (h' = h) then s else job_state w h';
     next_job := next_job w; network_log := network_log w |}.

(** Modelled from the spec: the executors are not among the sources.
    "[query(handle) -> Status]: maps backend-native job state to the
    four-value Status"; every status query is a network call. *)
Definition query (h : Handle) (w : World) : Status * World :=
  (status_of_native h.1 (job_state w h), send (QueryRequest h) w).

(** Modelled from the spec: "[launch(job) -> Handle]: issues the
    backend-native request.  Fails with [LaunchError]"; requirement
    errors are "local validation, never reach the network". *)
Definition launch (j : Job) (w : World) : result error Handle * World :=
  let ex := executor j in
  match validate gpu_valid_count (allow_heterogeneous ex) (requirements ex) with
  | Err e => (Err (Requirement e), w)
  | Ok _ =>
      let w1 := send (LaunchRequest (backend ex)) w in
      match accept (backend ex) j with
      | Err e => (Err (LaunchError e), w1)
      | Ok s =>
          let h := (backend ex, next_job w1) in
          (Ok h,
           {| job_state := job_state (move h s w1);
              next_job := S (next_job w1);
              network_log := network_log w1 |})
      end
  end.

(** Modelled from the spec: the status is "always recomputed from the
    Executor's latest query result"; "a failed launch leaves the
    WorkUnit in Failed status permanently"; a unit whose launch is
    still enqueued is Pending. *)
Definition refresh (u : WorkUnit) (w : World) : WorkUnit * World :=
  match unit_launch u with
  | Enqueued => (set_status Pending u, w)
  | LaunchFailed _ => (set_status Failed u, w)
  | Submitted h => let '(s, w') := query h w in (set_status s u, w')
  end.

(** The read of the status that goes through the executor's query. *)
Definition read_status (u : WorkUnit) (w : World) : Status :=
  get_status (refresh u w).1.

(** The scheduler runs the enqueued launch of a unit. *)
Definition launch_unit (u : WorkUnit) (w : World) : WorkUnit * World :=
  match unit_launch u with
  | Enqueued =>
      match launch (unit_job u) w with
      | (Ok h, w') =>
          ({| unit_index := unit_index u; unit_job := unit_job u;
              unit_launch := Submitted h;
              cached_status := cached_status u |}, w')
      | (Err e, w') =>
          ({| unit_index := unit_index u; unit_job := unit_job u;
              unit_launch := LaunchFailed e;
              cached_status := Failed |}, w')
      end
  | _ => (u, w)
  end.

(** [at_unit f i e w] applies [f] to the unit at position [i] of the
    experiment, if there is one. *)
Definition at_unit (f : WorkUnit -> World -> WorkUnit * World)
    (i : nat) (e : Experiment) (w : World) : Experiment * World :=
  match work_units e !! i with
  | Some u => let '(u', w') := f u w in
              (with_units (<[i := u']> (work_units e)) e, w')
  | None => (e, w)
  end.

(** What happens between creation and close, in any order: the caller
    adds a job, the scheduler runs the launch of a unit, a status is
    refreshed, a backend moves a job to another state. *)
Inductive event : Type :=
| AddCall (j : Job)
| RunLaunch (i : nat)
| Refresh (i : nat)
| BackendMove (h : Handle) (s : native).

Definition step (e : Experiment) (w : World) (ev : event)
  : option WorkUnit * Experiment * World :=
  match ev with
  | AddCall j => let '(u, e') := add j e in (Some u, e', w)
  | RunLaunch i => let '(e', w') := at_unit launch_unit i e w in (None, e', w')
  | Refresh i => let '(e', w') := at_unit refresh i e w in (None, e', w')
  | BackendMove h s => (None, e, move h s w)
  end.

(** The work units the [add] calls of a run return, in call order,
    and the experiment and the world at its end. *)
Fixpoint run (evs : list event) (e : Experiment) (w : World)
  : list WorkUnit * Experiment * World :=
  match evs with
  | [] => ([], e, w)
  | ev :: evs' =>
      let '(o, e1, w1) := step e w ev in
      let '(us, e2, w2) := run evs' e1 w1 in
      (match o with Some u => u :: us | None => us end, e2, w2)
  end.

Definition is_add (ev : event) : bool :=
  match ev with AddCall _ => true | _ => false end.

Definition add_calls (evs : list event) : nat :=
  length (List.filter is_add evs).

(** Modelled from the spec: "Closing an Experiment ... waits for all
    outstanding launches to be submitted (not necessarily completed)
    before releasing". *)
Fixpoint launch_all (us : list WorkUnit) (w : World)
  : list WorkUnit * World :=
  match us with
  | [] => ([], w)
  | u :: us' =>
      let '(u', w1) := launch_unit u w in
      let '(us'', w2) := launch_all us' w1 in
      (u' :: us'', w2)
  end.

Definition close (e : Experiment) (w : World) : Experiment * World :=
  let '(us, w') := launch_all (work_units e) w in
  ({| experiment_id := experiment_id e;
      experiment_title := experiment_title e;
      executables := executables e; work_units := us;
      state := Closed |}, w').

(** Modelled from the spec: "[package(spec) -> Executable] ... Fails
    with [PackagingError] on build/push failure". *)
Definition package_one (s : ExecutableSpec) (xs : ExecutorSpec) (w : World)
  : result error Executable * World :=
  let w1 := send (BuildRequest s) w in
  match build s xs with
  | Some a => (Ok {| packaged_from := s; packaged_for := xs; artifact := a |}, w1)
  | None => (Err PackagingError, w1)
  end.

End Layer.

End Xm.

(** ** The notebook: a kernel, and the code cells in their written order *)

Module Notebook.
Import Py Requirements Xm.

(** What a name of the notebook can be bound to: data, what an import
    brought in (known by its qualified name), a function the notebook
    defines, an experiment object (known by its id), an executable, an
    executor, or an object that a library outside the model returned. *)
Inductive object : Type :=
| Data (v : value)
| Imported (name : string)
| FunctionObj (name : string)
| ExperimentObj (id : nat)
| ExecutableObj (x : Executable)
| ExecutorObj (x : Executor)
| Foreign (label : string).

Inductive exception : Type :=
| NameError (name : string)
| TypeError
| AttributeError (attr : string)
| UnpackError (e : Sweep.unpack_error)
| XmError (e : Xm.error)
| Raised (label : string).

Section Kernel.
Context {native : Type}.
Variable status_of_native : backend_tag -> native -> Status.
Variable accept : backend_tag -> Job -> result launch_error native.
Variable build : ExecutableSpec -> ExecutorSpec -> option string.
Variable gpu_valid_count : accelerator -> Z -> bool.
(** How the n-th call into code outside the model (an import, a call of
    another library, a shell command) ends: with an exception, or with
    the object it returns. *)
Variable outcome : nat -> string -> result exception object.

(** The state of the kernel: the user namespace, the experiment
    objects, what was printed and the number of outside calls made;
    and what the kernel talks to, the registry and the backends. *)
Record kernel : Type := {
  user_ns : gmap string object;
  heap : gmap nat Experiment;
  stdout : list (list object);
  calls : nat;
  registry : Registry;
  world : World (native := native)
}.

(** A statement runs in a kernel state; it ends normally or raises, and
    what it did to the state before it raised stays done. *)
Definition M (A : Type) : Type := kernel -> result exception A * kernel.

Definition ret {A} (a : A) : M A := fun k => (Ok a, k).

Definition raise {A} (e : exception) : M A := fun k => (Err e, k).

Definition bind {A B} (m : M A) (f : A -> M B) : M B :=
  fun k =>
    match m k with
    | (Ok a, k') => f a k'
    | (Err e, k') => (Err e, k')
    end.

Notation "'do' X <- A ; B" := (bind A (fun X => B))
  (at level 10, X name, A at level 100, B at level 200).
Notation "'do_' A ; B" := (bind A (fun _ => B))
  (at level 10, A at level 100, B at level 200).

(** Reading a name: an unbound name raises [NameError].  (The cells
    read the builtins [print], [list], [dict] and [zip] too; no cell
    rebinds them, and they are applied directly below.) *)
Definition load (name : string) : M object :=
  fun k =>
    match user_ns k !! name with
    | Some o => (Ok o, k)
    | None => (Err (NameError name), k)
    end.

Definition store (name : string) (o : object) : M unit :=
  fun k =>
    (Ok tt,
     {| user_ns := <[name := o]> (user_ns k); heap := heap k;
        stdout := stdout k; calls := calls k; registry := registry k;
        world := world k |}).

Definition outside (label : string) : M object :=
  fun k =>
    (outcome (calls k) label,
     {| user_ns := user_ns k; heap := heap k; stdout := stdout k;
        calls := S (calls k); registry := registry k;
        world := world k |}).

(** [!command]: the exit status of the command is not looked at. *)
Definition shell (command : string) : M unit :=
  fun k =>
    (Ok tt,
     {| user_ns := user_ns k; heap := heap k; stdout := stdout k;
        calls := S (calls k); registry := registry k;
        world := world k |}).

Definition print (os : list object) : M unit :=
  fun k =>
    (Ok tt,
     {| user_ns := user_ns k; heap := heap k;
        stdout := stdout k ++ [os]; calls := calls k;
        registry := registry k; world := world k |}).

(** [import name] and [from package import name]: the import raises or
    binds the name to the module. *)
Definition import (qualified name : string) : M unit :=
  do_ outside ("import " +:+ qualified);
  store name (Imported qualified).

Definition as_module (qualified : string) (o : object) : M unit :=
  match o with
  | Imported n =>
      if String.eqb n qualified then ret tt
      else raise (AttributeError qualified)
  | _ => raise (AttributeError qualified)
  end.

(** [o.attr] where [o] is to be an experiment. *)
Definition as_experiment (attr : string) (o : object) : M nat :=
  match o with
  | ExperimentObj id => ret id
  | _ => raise (AttributeError attr)
  end.

Definition as_executable (o : object) : M Executable :=
  match o with
  | ExecutableObj x => ret x
  | _ => raise TypeError
  end.

Definition as_executor (o : object) : M Executor :=
  match o with
  | ExecutorObj x => ret x
  | _ => raise TypeError
  end.

Definition as_dict (o : object) : M (dict value) :=
  match o with
  | Data (VDict kvs) => ret kvs
  | _ => raise TypeError
  end.

(** Iterating an object: a list yields its items. *)
Definition as_items (o : object) : M (list value) :=
  match o with
  | Data (VList xs) => ret xs
  | _ => raise TypeError
  end.

Definition with_experiment (id : nat) (e : Experiment) (k : kernel)
  : kernel :=
  {| user_ns := user_ns k; heap := <[id := e]> (heap k);
     stdout := stdout k; calls := calls k; registry := registry k;
     world := world k |}.

(** [xm_local.create_experiment(experiment_title=title)] *)
Definition xm_local_create_experiment (title : string) : M nat :=
  do m <- load "xm_local";
  do_ as_module "xmanager.xm_local" m;
  fun k =>
    match create_experiment title (registry k) with
    | (Ok e, reg) =>
        (Ok (experiment_id e),
         {| user_ns := user_ns k;
            heap := <[experiment_id e := e]> (heap k);
            stdout := stdout k; calls := calls k; registry := reg;
            world := world k |})
    | (Err err, reg) =>
        (Err (XmError err),
         {| user_ns := user_ns k; heap := heap k; stdout := stdout k;
            calls := calls k; registry := reg; world := world k |})
    end.

(** [experiment.add(job)] on the experiment object [id]. *)
Definition experiment_add (id : nat) (j : Job) : M unit :=
  fun k =>
    match heap k !! id with
    | Some e => (Ok tt, with_experiment id (add j e).2 k)
    | None => (Err (AttributeError "add"), k)
    end.

(** Leaving the [async with] block of the experiment [id]. *)
Definition experiment_exit (id : nat) : M unit :=
  fun k =>
    match heap k !! id with
    | Some e =>
        let '(e', w') := close accept gpu_valid_count e (world k) in
        (Ok tt,
         {| user_ns := user_ns k; heap := <[id := e']> (heap k);
            stdout := stdout k; calls := calls k;
            registry := registry k; world := w' |})
    | None => (Ok tt, k)
    end.

(** [async with xm_local.create_experiment(experiment_title=title) as name: body]:
    the exit runs on every way out of the body, and an exception of
    the body is raised again after it. *)
Definition async_with_experiment (title name : string) (body : M unit)
  : M unit :=
  do id <- xm_local_create_experiment title;
  do_ store name (ExperimentObj id);
  fun k =>
    let '(r, k1) := body k in
    let '(_, k2) := experiment_exit id k1 in
    (r, k2).

(** [for name in items: body] *)
Fixpoint for_in (name : string) (items : list value) (body : M unit)
  : M unit :=
  match items with
  | [] => ret tt
  | x :: items' =>
      do_ store name (Data x);
      do_ body;
      for_in name items' body
  end.

(** [experiment.package([xm.python_container(...)])] with one
    specification; the executable is recorded in the experiment. *)
Definition experiment_package (id : nat) (s : ExecutableSpec)
    (xs : ExecutorSpec) : M Executable :=
  fun k =>
    match package_one build s xs (world k) with
    | (Ok x, w') =>
        (Ok x,
         {| user_ns := user_ns k;
            heap := match heap k !! id with
                    | Some e =>
                        <[id := {| experiment_id := experiment_id e;
                                   experiment_title := experiment_title e;
                                   executables := executables e ++ [x];
                                   work_units := work_units e;
                                   state := state e |}]> (heap k)
                    | None => heap k
                    end;
            stdout := stdout k; calls := calls k;
            registry := registry k; world := w' |})
    | (Err err, w') =>
        (Err (XmError err),
         {| user_ns := user_ns k; heap := heap k; stdout := stdout k;
            calls := calls k; registry := registry k; world := w' |})
    end.

(** [experiment.add(xm.Job(executable=executable, executor=E, args=A))]:
    the receiver is read first, then [xm], then the keyword arguments
    from left to right. *)
Definition add_job (executor_arg : M Executor) (args_arg : M (dict value))
  : M unit :=
  do e <- load "experiment";
  do id <- as_experiment "add" e;
  do m <- load "xm";
  do_ as_module "xmanager.xm" m;
  do x <- load "executable";
  do x <- as_executable x;
  do ex <- executor_arg;
  do a <- args_arg;
  experiment_add id {| executable := x; executor := ex; args := a |}.

(** [xm_local.Caip(xm.JobRequirements(T4=1))] *)
Definition caip_t4 : M Executor :=
  do m <- load "xm_local";
  do_ as_module "xmanager.xm_local" m;
  do m <- load "xm";
  do_ as_module "xmanager.xm" m;
  ret {| backend := ManagedCloud; requirements := only T4 1;
         allow_heterogeneous := false |}.

(** [[executable] = experiment.package([xm.python_container(
      executor_spec=xm_local.Caip.Spec(),
      path=os.path.expanduser('~/xmanager/examples/cifar10_torch'),
      entrypoint=xm.ModuleName('cifar10'))])] *)
Definition package_cifar10 : M unit :=
  do e <- load "experiment";
  do id <- as_experiment "package" e;
  do m <- load "xm";
  do_ as_module "xmanager.xm" m;
  do m <- load "xm_local";
  do_ as_module "xmanager.xm_local" m;
  do_ load "os";
  do p <- outside "os.path.expanduser";
  do m <- load "xm";
  do_ as_module "xmanager.xm" m;
  match p with
  | Data (VStr p) =>
      do x <- experiment_package id
                {| path := p; entrypoint := "cifar10" |}
                {| spec_backend := ManagedCloud; push_image_tag := None |};
      store "executable" (ExecutableObj x)
  | _ => raise TypeError
  end.

Definition dict_object (d : dict value) : value := VDict d.

Definition inputs_value : value :=
  VDict (map (fun kv => (kv.1, VList kv.2)) Sweep.inputs).

(** The pools of a dict of lists, for the starred argument. *)
Fixpoint as_pools (kvs : dict value) : M (dict (list value)) :=
  match kvs with
  | [] => ret []
  | (key, VList xs) :: kvs' =>
      do rest <- as_pools kvs';
      ret ((key, xs) :: rest)
  | _ => raise TypeError
  end.

(** *** The code cells *)

(** The cells are named after what they do; each is given with its
    source.  The licence cell holds comments only. *)
Definition cell_license : M unit := ret tt.

(**
<<
  !git clone https://github.com/google-research/raksha.git ~/xmanager
  !pip install ~/xmanager
>>
*)
Definition cell_install : M unit :=
  do_ shell "git clone https://github.com/google-research/raksha.git ~/xmanager";
  shell "pip install ~/xmanager".

(**
<<
  from google import auth
  credentials = auth.default()[0]
  project = auth.default()[1]
  print('GCP Project:', project)
>>
*)
Definition cell_gcp_project : M unit :=
  do_ import "google.auth" "auth";
  do_ load "auth";
  do c <- outside "auth.default()[0]";
  do_ store "credentials" c;
  do_ load "auth";
  do p <- outside "auth.default()[1]";
  do_ store "project" p;
  do p <- load "project";
  print [Data (VStr "GCP Project:"); p].

(**
<<
  from IPython.display import display
  import ipywidgets
  import os

  def bucket_changed(change):
      os.environ['GOOGLE_CLOUD_BUCKET_NAME'] = change.new

  GOOGLE_CLOUD_BUCKET_NAME = ipywidgets.Text(
      description='GOOGLE_CLOUD_BUCKET_NAME:',
      style={'description_width': 'initial'},
      layout=ipywidgets.Layout(width='50%'),
  )
  GOOGLE_CLOUD_BUCKET_NAME.observe(bucket_changed, names='value')

  display(GOOGLE_CLOUD_BUCKET_NAME)
>>
*)
Definition cell_bucket : M unit :=
  do_ import "IPython.display.display" "display";
  do_ import "ipywidgets" "ipywidgets";
  do_ import "os" "os";
  do_ store "bucket_changed" (FunctionObj "bucket_changed");
  do_ load "ipywidgets";
  do_ load "ipywidgets";
  do_ outside "ipywidgets.Layout";
  do t <- outside "ipywidgets.Text";
  do_ store "GOOGLE_CLOUD_BUCKET_NAME" t;
  do_ load "GOOGLE_CLOUD_BUCKET_NAME";
  do_ load "bucket_changed";
  do_ outside "observe";
  do_ load "display";
  do_ load "GOOGLE_CLOUD_BUCKET_NAME";
  do_ outside "display";
  ret tt.

(**
<<
  from xmanager import xm
  from xmanager import xm_local
  from absl import flags
  flags.FLAGS([''])
  flags.FLAGS.xm_wrap_late_bindings = True
>>
*)
Definition cell_flags : M unit :=
  do_ import "xmanager.xm" "xm";
  do_ import "xmanager.xm_local" "xm_local";
  do_ import "absl.flags" "flags";
  do_ load "flags";
  do_ outside "flags.FLAGS";
  do_ load "flags";
  do_ outside "flags.FLAGS.xm_wrap_late_bindings";
  ret tt.

(**
<<
  import itertools
  import os

  from xmanager import xm
  from xmanager import xm_local
>>
*)
Definition cell_imports : M unit :=
  do_ import "itertools" "itertools";
  do_ import "os" "os";
  do_ import "xmanager.xm" "xm";
  import "xmanager.xm_local" "xm_local".

(**
<<
  async with xm_local.create_experiment(experiment_title='my-first-experiment') as experiment:
      print(f'Local Experiment created with experiment_id={experiment.experiment_id}')
>>
*)
Definition cell_create : M unit :=
  async_with_experiment "my-first-experiment" "experiment"
    (do e <- load "experiment";
     do id <- as_experiment "experiment_id" e;
     print [Data (VStr "Local Experiment created with experiment_id=");
            Data (VInt (Z.of_nat id))]).

(** The packaging statement alone, outside of any [async with] block. *)
Definition cell_package : M unit := package_cifar10.

(** [executor = xm_local.Caip(xm.JobRequirements(T4=1))] *)
Definition cell_executor : M unit :=
  do ex <- caip_t4;
  store "executor" (ExecutorObj ex).

(**
<<
  async with xm_local.create_experiment(experiment_title='cifar10') as experiment:
      experiment.add(xm.Job(
          executable=executable,
          executor=executor,
          args={'batch_size': 64, 'learning_rate': 0.01},
      ))
>>
*)
Definition cell_single_job : M unit :=
  async_with_experiment "cifar10" "experiment"
    (add_job
       (do ex <- load "executor"; as_executor ex)
       (ret [("batch_size", VInt 64); ("learning_rate", VFloat "0.01")])).

(**
<<
  inputs = {
      'batch_size': [64, 128],
      'learning_rate': [0.01, 0.001],
  }
  hyperparameters = list(dict(zip(inputs, x)) for x in itertools.product( *inputs.values()))

  from pprint import pprint
  pprint(hyperparameters)
>>
    The argument of [itertools.product] is evaluated first, then the
    generator is run to its end.  *)
Definition cell_hyperparameters : M unit :=
  do_ store "inputs" (Data inputs_value);
  do_ load "itertools";
  do i <- load "inputs";
  do kvs <- as_dict i;
  do pools <- as_pools kvs;
  do_ store "hyperparameters"
        (Data (VList (map dict_object (Sweep.expand pools))));
  do_ import "pprint.pprint" "pprint";
  do_ load "pprint";
  do h <- load "hyperparameters";
  print [h].

(** The grid-search cell:
<<
  async with xm_local.create_experiment(experiment_title='cifar10') as experiment:
      for hparams in trials:
          experiment.add(xm.Job(
              executable=executable,
              executor=executor,
              args=hparams,
          ))
>>
*)
Definition cell_grid_search : M unit :=
  async_with_experiment "cifar10" "experiment"
    (do t <- load "trials";
     do items <- as_items t;
     for_in "hparams" items
       (add_job
          (do ex <- load "executor"; as_executor ex)
          (do h <- load "hparams"; as_dict h))).

(** The end-to-end cell, the last of the notebook: it packages, binds
    [trials] to the two-list expansion and adds a job for each.
<<
  async with xm_local.create_experiment(experiment_title='cifar10') as experiment:
      [executable] = experiment.package([ ... ])

      batch_sizes = [64, 128]
      learning_rates = [0.01, 0.001]
      trials = list(
          dict([('batch_size', bs), ('learning_rate', lr)])
          for (bs, lr) in itertools.product(batch_sizes, learning_rates)
      )
      for hyperparameters in trials:
          experiment.add(xm.Job(
              executable=executable,
              executor=xm_local.Caip(requirements=xm.JobRequirements(T4=1)),
              args=hyperparameters,
          ))
>>
*)
Definition cell_end_to_end : M unit :=
  async_with_experiment "cifar10" "experiment"
    (do_ package_cifar10;
     do_ store "batch_sizes" (Data (VList Sweep.batch_sizes));
     do_ store "learning_rates" (Data (VList Sweep.learning_rates));
     do_ load "itertools";
     do b <- load "batch_sizes";
     do bs <- as_items b;
     do l <- load "learning_rates";
     do lrs <- as_items l;
     do_ match Sweep.expand_pair "batch_size" "learning_rate" bs lrs with
         | Ok ds => store "trials" (Data (VList (map dict_object ds)))
         | Err e => raise (UnpackError e)
         end;
     do t <- load "trials";
     do items <- as_items t;
     for_in "hyperparameters" items
       (add_job caip_t4 (do h <- load "hyperparameters"; as_dict h))).

(** The code cells above the grid-search cell, in their written order. *)
Definition cells_before_grid_search : list (M unit) :=
  [ cell_license; cell_install; cell_gcp_project; cell_bucket;
    cell_flags; cell_imports; cell_create; cell_package;
    cell_executor; cell_single_job; cell_hyperparameters ].

(** Running cells one after the other, up to the first that raises. *)
Fixpoint run_cells (cells : list (M unit)) : M unit :=
  match cells with
  | [] => ret tt
  | c :: cells' => do_ c; run_cells cells'
  end.

(** *** Properties of kernel states *)

Definition unbound (name : string) (k : kernel) : Prop :=
  user_ns k !! name = None.

(** The library is imported under the name [xm_local] and the registry
    is in reach: [xm_local.create_experiment] will return. *)
Definition ready (k : kernel) : Prop :=
  user_ns k !! "xm_local" = Some (Imported "xmanager.xm_local")
  /\ reachable (registry k) = true.

(** A statement preserves a property when the property holds after it,
    however it ends, if it held before. *)
Definition preserves {A} (P : kernel -> Prop) (m : M A) : Prop :=
  forall k, P k -> P (m k).2.

(** A property that looks at the namespace and at the reach of the
    registry only. *)
Definition stable (P : kernel -> Prop) : Prop :=
  forall k k',
    user_ns k' = user_ns k ->
    reachable (registry k') = reachable (registry k) ->
    P k -> P k'.

(** A property that binding [name] does not break. *)
Definition store_safe (P : kernel -> Prop) (name : string) : Prop :=
  forall o, preserves P (store name o).

(** The kernel state in which the body of an [async with] block
    starts, when the creation call returns. *)
Definition entered (name : string) (title : string) (k : kernel) : kernel :=
  {| user_ns := <[name := ExperimentObj (next_id (registry k))]> (user_ns k);
     heap := <[next_id (registry k)
               := new_experiment (next_id (registry k)) title]> (heap k);
     stdout := stdout k; calls := calls k;
     registry := (create title (registry k)).2;
     world := world k |}.

(** A new kernel: nothing is bound, nothing was printed. *)
Definition new_kernel (reg : Registry) (w : World) : kernel :=
  {| user_ns := ∅; heap := ∅; stdout := []; calls := 0;
     registry := reg; world := w |}.

(** *** Names that are bound, and statements that read no unbound name *)

Definition bound (names : list string) (k : kernel) : Prop :=
  forall n, In n names -> is_Some (user_ns k !! n).

Definition is_name_error (e : exception) : bool :=
  match e with
  | NameError _ => true
  | _ => false
  end.

(** Started with the names [pre] bound, the statement does not raise
    [NameError], and leaves the names [post] bound when it ends normally. *)
Definition name_safe {A} (pre post : list string) (m : M A) : Prop :=
  forall k, bound pre k ->
    match m k with
    | (Ok _, k') => bound post k'
    | (Err e, _) => is_name_error e = false
    end.

(** The names the loop of the grid-search cell reads, bound to objects
    of the kinds it uses them as. *)
Definition launch_ready (x : Executable) (ex : Executor) (k : kernel) : Prop :=
  user_ns k !! "xm" = Some (Imported "xmanager.xm")
  /\ user_ns k !! "executable" = Some (ExecutableObj x)
  /\ user_ns k !! "executor" = Some (ExecutorObj ex).

End Kernel.

(** The job the loop of the grid-search cell makes of one trial, and the
    experiment after the jobs of some trials were added in order. *)
Definition job_of (x : Executable) (ex : Executor) (d : dict value) : Job :=
  {| executable := x; executor := ex; args := d |}.

Definition add_all (x : Executable) (ex : Executor) (ds : list (dict value))
    (e : Experiment) : Experiment :=
  fold_left (fun e d => (add (job_of x ex d) e).2) ds e.

(** An experiment that was closed before any job was added to it. *)
Definition closed_empty (id : nat) (title : string) : Experiment :=
  {| experiment_id := id; experiment_title := title; executables := [];
     work_units := []; state := Closed |}.

(** *** A run in which every outside call succeeds

    The backends take every job on as pending, every build yields an
    image, every GPU count is valid, and every call outside the model
    returns. *)
Definition sample_outcome (n : nat) (label : string)
  : result exception object :=
  if String.eqb label "os.path.expanduser"
  then Ok (Data (VStr "/home/user/xmanager/examples/cifar10_torch"))
  else Ok (Foreign label).

Definition sample_accept (b : backend_tag) (j : Job)
  : result launch_error Status := Ok Pending.

Definition sample_build (s : ExecutableSpec) (xs : ExecutorSpec)
  : option string := Some "gcr.io/project/cifar10:latest".

Definition sample_gpu_valid_count (k : accelerator) (n : Z) : bool := true.

Definition sample_kernel : kernel (native := Status) :=
  new_kernel
    {| next_id := 1; records := ∅; reachable := true |}
    {| job_state := fun _ => Pending; next_job := 0; network_log := [] |}.

(** The kernel after the import cell alone, and the kernel after all the
    cells above the grid-search cell and then the end-to-end cell. *)
Definition sample_imported : kernel (native := Status) :=
  (cell_imports sample_outcome sample_kernel).2.

Definition sample_after_end_to_end : kernel (native := Status) :=
  (cell_end_to_end sample_accept sample_build sample_gpu_valid_count
     sample_outcome
     (run_cells
        (cells_before_grid_search sample_accept sample_build
           sample_gpu_valid_count sample_outcome)
        sample_kernel).2).2.

Definition sample_executable : Executable :=
  {| packaged_from :=
       {| path := "/home/user/xmanager/examples/cifar10_torch";
          entrypoint := "cifar10" |};
     packaged_for := {| spec_backend := ManagedCloud; push_image_tag := None |};
     artifact := "gcr.io/project/cifar10:latest" |}.

Definition sample_executor : Executor :=
  {| backend := ManagedCloud; requirements := only T4 1;
     allow_heterogeneous := false |}.

End Notebook.

(** * Part II. Properties *)

Section SweepFacts.
Import Py Sweep.
Context {V : Type}.

Lemma product_step_length (result : list (list V)) (pool : list V) :
  length (product_step result pool) = length result * length pool.
Proof.
  unfold product_step.
  induction result as [|x result IH]; simpl; [done|].
  rewrite length_app, length_map, IH. lia.
Qed.

Lemma fold_product_step_length (pools : list (list V)) (acc : list (list V)) :
  length (fold_left product_step pools acc)
  = length acc * foldr Nat.mul 1 (map length pools).
Proof.
  revert acc. induction pools as [|pool pools IH]; intros acc; simpl.
  - lia.
  - rewrite IH, product_step_length. lia.
Qed.

Lemma product_length (pools : list (list V)) :
  length (product pools) = foldr Nat.mul 1 (map length pools).
Proof.
  unfold product. rewrite fold_product_step_length. simpl. lia.
Qed.

Lemma expand_length (inputs : dict (list V)) :
  length (expand inputs) = foldr Nat.mul 1 (map length (values inputs)).
Proof.
  unfold expand. rewrite length_map. apply product_length.
Qed.

(** *** Lexicographic order: the first pool varies slowest *)

Lemma flat_map_singleton_app (acc : list (list V)) :
  flat_map (fun x => map (app x) [[]]) acc = acc.
Proof.
  induction acc as [|x acc IH]; [done|].
  cbn [flat_map]. rewrite IH. simpl. by rewrite app_nil_r.
Qed.

Lemma flat_map_flat_map {A B C} (f : A -> list B) (g : B -> list C) (l : list A) :
  flat_map g (flat_map f l) = flat_map (fun a => flat_map g (f a)) l.
Proof.
  induction l as [|a l IH]; simpl; [done|].
  by rewrite flat_map_app, IH.
Qed.

Lemma map_flat_map_comm {A B C} (f : A -> list B) (g : B -> C) (l : list A) :
  map g (flat_map f l) = flat_map (fun a => map g (f a)) l.
Proof.
  induction l as [|a l IH]; simpl; [done|].
  by rewrite map_app, IH.
Qed.

Lemma flat_map_map_comm {A B C} (f : A -> B) (g : B -> list C) (l : list A) :
  flat_map g (map f l) = flat_map (fun a => g (f a)) l.
Proof.
  induction l as [|a l IH]; simpl; [done|]. by rewrite IH.
Qed.

(** Running the loop of [product] from an accumulator [acc] prefixes
    every element of [acc], in order, to the product of the pools. *)
Lemma fold_product_step_prefix (pools : list (list V)) (acc : list (list V)) :
  fold_left product_step pools acc
  = flat_map (fun x => map (app x) (product pools)) acc.
Proof.
  revert acc. induction pools as [|pool pools IH]; intros acc.
  - unfold product. simpl. symmetry. apply flat_map_singleton_app.
  - change (product (pool :: pools))
      with (fold_left product_step pools (product_step [[]] pool)).
    change (fold_left product_step (pool :: pools) acc)
      with (fold_left product_step pools (product_step acc pool)).
    rewrite (IH (product_step acc pool)), (IH (product_step [[]] pool)).
    unfold product_step at 1. rewrite flat_map_flat_map.
    apply flat_map_ext. intros x.
    unfold product_step. simpl. rewrite app_nil_r.
    rewrite !flat_map_map_comm, map_flat_map_comm.
    apply flat_map_ext. intros y.
    rewrite map_map. apply map_ext. intros z.
    by rewrite <- app_assoc.
Qed.

Lemma product_nil : product (@nil (list V)) = [[]].
Proof. reflexivity. Qed.

Lemma product_cons (pool : list V) (pools : list (list V)) :
  product (pool :: pools)
  = flat_map (fun y => map (cons y) (product pools)) pool.
Proof.
  change (product (pool :: pools))
    with (fold_left product_step pools (product_step [[]] pool)).
  rewrite fold_product_step_prefix.
  unfold product_step. simpl. rewrite app_nil_r.
  by rewrite flat_map_map_comm.
Qed.

Lemma product_pair (l1 l2 : list V) :
  product [l1; l2] = flat_map (fun a => map (fun b => [a; b]) l2) l1.
Proof.
  rewrite product_cons. apply flat_map_ext. intros a.
  rewrite product_cons, product_nil. simpl.
  rewrite map_flat_map_comm. simpl.
  induction l2 as [|b l2 IH]; simpl; [done|]. by rewrite IH.
Qed.

Lemma for_each_map {E A B} (f : A -> result E B) (g : A -> B) (xs : list A) :
  (forall x, In x xs -> f x = Ok (g x)) ->
  for_each f xs = Ok (map g xs).
Proof.
  induction xs as [|x xs IH]; intros Hf; simpl; [done|].
  rewrite (Hf x) by (by left).
  rewrite IH; [done|]. intros y Hy. apply Hf. by right.
Qed.

(** The two-list expansion of the end-to-end cell never fails at the
    unpacking, and computes the generic expansion of the two-key dict. *)
Lemma expand_pair_expand (k1 k2 : string) (l1 l2 : list V) :
  expand_pair k1 k2 l1 l2 = Ok (expand [(k1, l1); (k2, l2)]).
Proof.
  unfold expand_pair, expand. simpl keys. simpl values.
  apply for_each_map. intros x Hx.
  rewrite product_pair in Hx. apply in_flat_map in Hx as (a & _ & Hx).
  apply in_map_iff in Hx as (b & <- & _). reflexivity.
Qed.

Lemma expand_empty_pool (before after : dict (list V)) (k : string) :
  expand (before ++ (k, []) :: after) = [].
Proof.
  apply length_zero_iff_nil. rewrite expand_length.
  unfold values. rewrite map_app, map_app. simpl.
  induction (map length (map snd before)) as [|n ns IH]; simpl; lia.
Qed.

(** *** The combinations are mappings over the parameters of the input *)

Lemma product_item_length (pools : list (list V)) (x : list V) :
  In x (product pools) -> length x = length pools.
Proof.
  revert x. induction pools as [|pool pools IH]; intros x.
  - rewrite product_nil. intros [<-|[]]. done.
  - rewrite product_cons. intros (y & _ & Hx)%in_flat_map.
    apply in_map_iff in Hx as (x' & <- & Hx'). simpl. by rewrite (IH x').
Qed.

Lemma dict_set_fresh (k : string) (v : V) (d : dict V) :
  ~ In k (keys d) -> dict_set k v d = d ++ [(k, v)].
Proof.
  unfold keys. induction d as [|[k' v'] d IH]; simpl; [done|]. intros Hk.
  destruct (String.eqb k k') eqn:E.
  - apply String.eqb_eq in E as ->. exfalso. apply Hk. by left.
  - rewrite IH; [done|]. intros Hin. apply Hk. by right.
Qed.

Lemma fold_dict_set_fresh (pairs acc : dict V) :
  dict_wf (acc ++ pairs) ->
  fold_left (fun d kv => dict_set kv.1 kv.2 d) pairs acc = acc ++ pairs.
Proof.
  revert acc. induction pairs as [|[k v] pairs IH]; intros acc Hwf; simpl.
  - by rewrite app_nil_r.
  - rewrite dict_set_fresh.
    + rewrite IH; rewrite <- app_assoc; done.
    + unfold dict_wf, keys in Hwf. rewrite map_app in Hwf. simpl in Hwf.
      apply NoDup_remove_2 in Hwf. intros Hin. apply Hwf.
      apply in_or_app. by left.
Qed.

Lemma dict_of_pairs_wf (pairs : dict V) :
  dict_wf pairs -> dict_of_pairs pairs = pairs.
Proof. intros Hwf. unfold dict_of_pairs. by rewrite fold_dict_set_fresh. Qed.

Lemma keys_zip (ks : list string) (x : list V) :
  length x = length ks -> keys (zip ks x) = ks.
Proof.
  revert x. induction ks as [|k ks IH]; intros [|y x]; simpl; try done.
  intros [= Hlen]. unfold keys in *. simpl. by rewrite IH.
Qed.

(** Over a dict, every combination maps the parameters of the input, in
    their order, to one value each. *)
Lemma expand_keys (inputs : dict (list V)) (d : dict V) :
  dict_wf inputs -> In d (expand inputs) -> keys d = keys inputs.
Proof.
  intros Hwf. unfold expand. intros (x & <- & Hx)%in_map_iff.
  apply product_item_length in Hx.
  assert (Hlen : length x = length (keys inputs)).
  { unfold keys, values in *. by rewrite length_map in *. }
  rewrite dict_of_pairs_wf; [by apply keys_zip|].
  unfold dict_wf. by rewrite keys_zip.
Qed.

End SweepFacts.

(** C1.  Expanding the sweep over
    [{batch_size: [64, 128], learning_rate: [0.01, 0.001]}] yields exactly
    four parameter mappings, in the order (64, 0.01), (64, 0.001),
    (128, 0.01), (128, 0.001): the first parameter in key order varies
    slowest. *)
Theorem hyperparameters_enumeration :
  Sweep.hyperparameters =
    [ [("batch_size", Py.VInt 64); ("learning_rate", Py.VFloat "0.01")];
      [("batch_size", Py.VInt 64); ("learning_rate", Py.VFloat "0.001")];
      [("batch_size", Py.VInt 128); ("learning_rate", Py.VFloat "0.01")];
      [("batch_size", Py.VInt 128); ("learning_rate", Py.VFloat "0.001")] ]
  /\ length Sweep.hyperparameters = 4.
Proof. split; reflexivity. Qed.

(** C2.  For every mapping from parameter names to finite value
    sequences, the expansion has exactly as many combinations as the
    product of the lengths of the value sequences; the empty mapping yields
    exactly one combination, the empty one; a mapping with an empty value
    sequence anywhere yields no combination. *)
Theorem expand_cardinality :
  (forall (V : Type) (inputs : Py.dict (list V)),
      length (Sweep.expand inputs)
      = foldr Nat.mul 1 (map length (Py.values inputs)))
  /\ (forall V : Type, Sweep.expand (@nil (string * list V)) = [[]])
  /\ (forall (V : Type) (before after : Py.dict (list V)) (k : string),
        Sweep.expand (before ++ (k, []) :: after) = []).
Proof.
  split; [|split].
  - intros V inputs. apply expand_length.
  - reflexivity.
  - intros V before after k. apply expand_empty_pool.
Qed.

(** C9.  The generic expansion of the "Defining the hyperparameters" cell
    and the explicit two-list construction of the end-to-end cell produce
    the same list of dictionaries, in the same order. *)
Theorem trials_eq_hyperparameters :
  Sweep.trials = Ok Sweep.hyperparameters.
Proof.
  unfold Sweep.trials, Sweep.hyperparameters, Sweep.inputs,
    Sweep.batch_sizes, Sweep.learning_rates.
  apply expand_pair_expand.
Qed.

(** ** The wrapper script *)

Section WrapperFacts.
Import Wrapper.

Lemma string_app_nil_l (s : string) : EmptyString +:+ s = s.
Proof. reflexivity. Qed.

Lemma string_app_cons (c : ascii) (a s : string) :
  String c a +:+ s = String c (a +:+ s).
Proof. reflexivity. Qed.

Lemma string_app_empty_r (w : string) : w +:+ EmptyString = w.
Proof.
  induction w as [|c w IH]; [done|]. by rewrite string_app_cons, IH.
Qed.

Lemma string_app_assoc (a b c : string) : (a +:+ b) +:+ c = a +:+ (b +:+ c).
Proof.
  induction a as [|x a IH]; [done|]. by rewrite !string_app_cons, IH.
Qed.

Lemma string_forallb_app (p : ascii -> bool) (a b : string) :
  string_forallb p (a +:+ b) = string_forallb p a && string_forallb p b.
Proof.
  induction a as [|c a IH]; [done|].
  rewrite string_app_cons. simpl. rewrite IH. by destruct (p c).
Qed.

Lemma string_forallb_impl (p q : ascii -> bool) (s : string) :
  (forall c, p c = true -> q c = true) ->
  string_forallb p s = true -> string_forallb q s = true.
Proof.
  intros Hpq. induction s as [|c s IH]; simpl; [done|].
  intros [Hc Hs]%andb_prop. rewrite (Hpq c Hc), (IH Hs). done.
Qed.

Lemma plain_not_empty (w : string) : plain w = true -> w <> EmptyString.
Proof.
  unfold plain. intros [Hne _]%andb_prop ->. done.
Qed.

Lemma plain_no_ifs (w : string) :
  plain w = true -> string_forallb no_ifs w = true.
Proof.
  unfold plain. intros [_ Hw]%andb_prop.
  apply (string_forallb_impl plain_char); [|done].
  unfold plain_char, no_ifs. intros c [[H _]%andb_prop _]%andb_prop. done.
Qed.

Lemma plain_kept (w : string) :
  plain w = true -> string_forallb kept w = true.
Proof.
  unfold plain. intros [_ Hw]%andb_prop.
  apply (string_forallb_impl plain_char); [|done].
  unfold plain_char, kept. intros c [[_ H]%andb_prop _]%andb_prop. done.
Qed.

Lemma plain_not_pattern (w : string) : plain w = true -> is_pattern w = false.
Proof.
  unfold plain, is_pattern. intros [_ Hw]%andb_prop.
  apply negb_false_iff.
  apply (string_forallb_impl plain_char); [|done].
  unfold plain_char. intros c [_ H]%andb_prop. done.
Qed.

(** *** [tr -d] *)

Lemma tr_d_kept (s : string) :
  string_forallb kept s = true -> tr_d deleted s = s.
Proof.
  induction s as [|c s IH]; [done|]. cbn [string_forallb tr_d].
  intros [Hc Hs]%andb_prop. unfold kept in Hc.
  apply negb_true_iff in Hc. rewrite Hc, (IH Hs). done.
Qed.

Lemma tr_d_deletes (s : string) :
  string_forallb kept (tr_d deleted s) = true.
Proof.
  induction s as [|c s IH]; [done|]. cbn [tr_d].
  destruct (existsb (Ascii.eqb c) deleted) eqn:Hc; [done|].
  cbn [string_forallb]. unfold kept at 1. rewrite Hc. done.
Qed.

(** *** Word splitting *)

Lemma fields_app_word (w s : string) :
  string_forallb no_ifs w = true ->
  fields (w +:+ s) = (w +:+ (fields s).1, (fields s).2).
Proof.
  induction w as [|c w IH].
  - intros _. rewrite !string_app_nil_l. by destruct (fields s).
  - cbn [string_forallb]. intros [Hc Hw]%andb_prop.
    rewrite !string_app_cons. cbn [fields]. rewrite (IH Hw).
    unfold no_ifs in Hc. apply negb_true_iff in Hc. by rewrite Hc.
Qed.

Lemma word_split_sep (c : ascii) (s : string) :
  is_ifs c = true -> fields (String c s) = (EmptyString, word_split s).
Proof.
  intros Hc. simpl. unfold word_split. destruct (fields s). by rewrite Hc.
Qed.

Lemma word_split_word_sep (w : string) (c : ascii) (s : string) :
  plain w = true -> is_ifs c = true ->
  word_split (w +:+ String c s) = w :: word_split s.
Proof.
  intros Hw Hc. unfold word_split at 1.
  rewrite fields_app_word by (by apply plain_no_ifs).
  rewrite (word_split_sep c s Hc). simpl. rewrite string_app_empty_r.
  apply plain_not_empty in Hw. by destruct w.
Qed.

Lemma word_split_plain (w : string) : plain w = true -> word_split w = [w].
Proof.
  intros Hw. unfold word_split.
  rewrite <- (string_app_empty_r w) at 1.
  rewrite fields_app_word by (by apply plain_no_ifs).
  simpl. rewrite string_app_empty_r.
  apply plain_not_empty in Hw. by destruct w.
Qed.

Lemma word_split_unwords (ws : list string) :
  Forall (fun w => plain w = true) ws ->
  word_split (unwords ws +:+ String newline EmptyString) = ws.
Proof.
  induction 1 as [|w ws Hw Hws IH]; [done|].
  destruct ws as [|w' ws].
  - simpl unwords. by rewrite word_split_word_sep.
  - change (unwords (w :: w' :: ws))
      with (w +:+ String " " (unwords (w' :: ws))).
    rewrite string_app_assoc, string_app_cons.
    rewrite word_split_word_sep by done. by rewrite IH.
Qed.

Lemma unwords_kept (ws : list string) :
  Forall (fun w => plain w = true) ws ->
  string_forallb kept (unwords ws +:+ String newline EmptyString) = true.
Proof.
  induction 1 as [|w ws Hw Hws IH]; [done|].
  destruct ws as [|w' ws].
  - simpl unwords. rewrite string_forallb_app, plain_kept by done. done.
  - change (unwords (w :: w' :: ws))
      with (w +:+ String " " (unwords (w' :: ws))).
    rewrite string_app_assoc, string_forallb_app, plain_kept by done.
    rewrite string_app_cons. cbn [string_forallb]. by rewrite IH.
Qed.

(** Every word that splitting produces is made of characters of the
    string that was split. *)
Lemma fields_forallb (p : ascii -> bool) (s : string) :
  string_forallb p s = true ->
  string_forallb p (fields s).1 = true
  /\ Forall (fun w => string_forallb p w = true) (fields s).2.
Proof.
  induction s as [|c s IH]; simpl; [by split|].
  intros [Hc Hs]%andb_prop. destruct (IH Hs) as [Hw Hws].
  destruct (fields s) as [w ws]. simpl in *.
  destruct (is_ifs c); simpl.
  - split; [done|]. destruct w; [done|]. by constructor.
  - split; [|done]. by rewrite Hc, Hw.
Qed.

Lemma word_split_forallb (p : ascii -> bool) (s : string) :
  string_forallb p s = true ->
  Forall (fun w => string_forallb p w = true) (word_split s).
Proof.
  intros Hs. destruct (fields_forallb p s Hs) as [Hw Hws].
  unfold word_split. destruct (fields s) as [w ws]. simpl in *.
  destruct w; [done|]. by constructor.
Qed.

(** *** Unquoted expansions *)

Lemma unquoted_plain (pathname_expansion : string -> list string)
    (ws : list string) :
  (forall w, is_pattern w = false -> pathname_expansion w = [w]) ->
  Forall (fun w => plain w = true) ws ->
  unquoted pathname_expansion ws = ws.
Proof.
  intros Hpe. unfold unquoted.
  induction 1 as [|w ws Hw Hws IH]; simpl; [done|].
  rewrite IH, (word_split_plain w Hw). simpl.
  rewrite Hpe by (by apply plain_not_pattern). done.
Qed.

(** *** Splitting joined and filtered words *)

Lemma flush_app (w : string) (ws ws' : list string) :
  flush w (ws ++ ws') = flush w ws ++ ws'.
Proof. by destruct w. Qed.

Lemma fields_app_sep (a : string) (c : ascii) (b : string) :
  is_ifs c = true ->
  fields (a +:+ String c b) = ((fields a).1, (fields a).2 ++ word_split b).
Proof.
  intros Hc. induction a as [|x a IH].
  - rewrite string_app_nil_l. by apply word_split_sep.
  - rewrite string_app_cons. cbn [fields]. rewrite IH.
    destruct (fields a) as [w ws]. cbn [fst snd].
    destruct (is_ifs x); [|done]. by rewrite flush_app.
Qed.

(** Splitting a string that holds a separator splits the two sides. *)
Lemma word_split_app_sep (a : string) (c : ascii) (b : string) :
  is_ifs c = true ->
  word_split (a +:+ String c b) = word_split a ++ word_split b.
Proof.
  intros Hc. unfold word_split at 1 2. rewrite (fields_app_sep a c b Hc).
  destruct (fields a) as [w ws]. cbn [fst snd]. apply flush_app.
Qed.

Lemma word_split_empty : word_split EmptyString = [].
Proof. reflexivity. Qed.

Lemma word_split_unwords_flat (ws : list string) :
  word_split (unwords ws) = flat_map word_split ws.
Proof.
  induction ws as [|w ws IH]; [done|].
  destruct ws as [|w' ws].
  - simpl. by rewrite app_nil_r.
  - change (unwords (w :: w' :: ws))
      with (w +:+ String " " (unwords (w' :: ws))).
    rewrite word_split_app_sep by done. by rewrite IH.
Qed.

(** A word without separators splits into itself, or into nothing when
    it is empty. *)
Lemma word_split_word (w : string) :
  string_forallb no_ifs w = true ->
  word_split w = if not_empty w then [w] else [].
Proof.
  intros Hw. unfold word_split.
  rewrite <- (string_app_empty_r w) at 1.
  rewrite (fields_app_word w EmptyString Hw). simpl.
  rewrite string_app_empty_r. by destruct w.
Qed.

Lemma fields_words (s : string) :
  string_forallb no_ifs (fields s).1 = true
  /\ Forall (fun w => not_empty w = true /\ string_forallb no_ifs w = true)
       (fields s).2.
Proof.
  induction s as [|c s [Hw Hws]]; [by split|]. cbn [fields].
  destruct (fields s) as [w ws]. cbn [fst snd] in *.
  destruct (is_ifs c) eqn:Hc; cbn [fst snd].
  - split; [done|]. destruct w; [done|]. by constructor.
  - split; [|done]. cbn [string_forallb]. unfold no_ifs at 1.
    by rewrite Hc, Hw.
Qed.

(** The words of a split are not empty and hold no separator. *)
Lemma word_split_words (s : string) :
  Forall (fun w => not_empty w = true /\ string_forallb no_ifs w = true)
    (word_split s).
Proof.
  destruct (fields_words s) as [Hw Hws]. unfold word_split.
  destruct (fields s) as [w ws]. cbn [fst snd] in *.
  destruct w; [done|]. by constructor.
Qed.

(** Splitting the words of a split again changes nothing. *)
Lemma flat_map_word_split_fixed (ws : list string) :
  Forall (fun w => not_empty w = true /\ string_forallb no_ifs w = true) ws ->
  flat_map word_split ws = ws.
Proof.
  induction 1 as [|w ws [Hne Hw] Hws IH]; [done|]. simpl.
  by rewrite (word_split_word w Hw), Hne, IH.
Qed.

Lemma tr_d_app (a b : string) :
  tr_d deleted (a +:+ b) = tr_d deleted a +:+ tr_d deleted b.
Proof.
  induction a as [|c a IH]; [done|].
  rewrite string_app_cons. cbn [tr_d].
  destruct (existsb (Ascii.eqb c) deleted); [done|].
  by rewrite string_app_cons, IH.
Qed.

Lemma tr_d_unwords (ws : list string) :
  tr_d deleted (unwords ws) = unwords (map (tr_d deleted) ws).
Proof.
  induction ws as [|w ws IH]; [done|].
  destruct ws as [|w' ws]; [done|].
  change (unwords (w :: w' :: ws))
    with (w +:+ String " " (unwords (w' :: ws))).
  rewrite tr_d_app. cbn [tr_d]. simpl existsb. cbv iota.
  rewrite IH. done.
Qed.

Lemma tr_d_no_ifs (w : string) :
  string_forallb no_ifs w = true ->
  string_forallb no_ifs (tr_d deleted w) = true.
Proof.
  induction w as [|c w IH]; [done|]. cbn [string_forallb tr_d].
  intros [Hc Hw]%andb_prop.
  destruct (existsb (Ascii.eqb c) deleted); [by apply IH|].
  cbn [string_forallb]. by rewrite Hc, IH.
Qed.

Lemma flat_map_word_split_filter (ws : list string) :
  Forall (fun w => string_forallb no_ifs w = true) ws ->
  flat_map word_split ws = List.filter not_empty ws.
Proof.
  induction 1 as [|w ws Hw Hws IH]; [done|]. simpl.
  rewrite (word_split_word w Hw), IH. by destruct (not_empty w).
Qed.

Lemma filter_map_tr_d_filter (ws : list string) :
  List.filter not_empty (map (tr_d deleted) (List.filter not_empty ws))
  = List.filter not_empty (map (tr_d deleted) ws).
Proof.
  induction ws as [|w ws IH]; [done|]. simpl.
  destruct (not_empty w) eqn:Hw; simpl; [by rewrite IH|].
  destruct w; [|done]. simpl. done.
Qed.

Lemma unquoted_unwords (pathname_expansion : string -> list string)
    (ws : list string) :
  unquoted pathname_expansion [unwords ws] = unquoted pathname_expansion ws.
Proof.
  unfold unquoted. cbn [flat_map]. rewrite app_nil_r.
  rewrite word_split_unwords_flat. apply flat_map_flat_map.
Qed.

(** *** Words that are no patterns *)

Lemma not_pattern_forallb (w : string) :
  is_pattern w = false
  <-> string_forallb (fun c => negb (is_glob c)) w = true.
Proof. unfold is_pattern. apply negb_false_iff. Qed.

Lemma kept_no_wild_not_glob (c : ascii) :
  kept c = true -> no_wild c = true -> negb (is_glob c) = true.
Proof.
  unfold kept, no_wild, is_wild, is_glob, deleted. simpl.
  destruct (Ascii.eqb c "*"), (Ascii.eqb c "?"), (Ascii.eqb c "[");
    simpl; try done.
Qed.

Lemma not_glob_no_wild (c : ascii) :
  negb (is_glob c) = true -> no_wild c = true.
Proof.
  unfold no_wild, is_wild, is_glob. simpl.
  destruct (Ascii.eqb c "*"), (Ascii.eqb c "?"); simpl; done.
Qed.

Lemma string_forallb_and (p q r : ascii -> bool) (s : string) :
  (forall c, p c = true -> q c = true -> r c = true) ->
  string_forallb p s = true -> string_forallb q s = true ->
  string_forallb r s = true.
Proof.
  intros Hpq. induction s as [|c s IH]; [done|]. cbn [string_forallb].
  intros [Hc Hs]%andb_prop [Hc' Hs']%andb_prop.
  by rewrite (Hpq c Hc Hc'), (IH Hs Hs').
Qed.

Lemma tr_d_forallb (p : ascii -> bool) (s : string) :
  string_forallb p s = true -> string_forallb p (tr_d deleted s) = true.
Proof.
  induction s as [|c s IH]; [done|]. cbn [string_forallb tr_d].
  intros [Hc Hs]%andb_prop.
  destruct (existsb (Ascii.eqb c) deleted); [by apply IH|].
  cbn [string_forallb]. by rewrite Hc, IH.
Qed.

Lemma word_split_not_pattern (s : string) :
  is_pattern s = false ->
  Forall (fun w => is_pattern w = false) (word_split s).
Proof.
  intros Hs%not_pattern_forallb.
  eapply Forall_impl; [apply (word_split_forallb _ s Hs)|].
  intros w Hw. by apply not_pattern_forallb.
Qed.

Lemma flat_map_fixed (pathname_expansion : string -> list string)
    (ws : list string) :
  (forall w, is_pattern w = false -> pathname_expansion w = [w]) ->
  Forall (fun w => is_pattern w = false) ws ->
  flat_map pathname_expansion ws = ws.
Proof.
  intros Hpe. induction 1 as [|w ws Hw Hws IH]; [done|]. simpl.
  by rewrite (Hpe w Hw), IH.
Qed.

(** Words that are no patterns are only split by an unquoted expansion. *)
Lemma unquoted_not_pattern (pathname_expansion : string -> list string)
    (ws : list string) :
  (forall w, is_pattern w = false -> pathname_expansion w = [w]) ->
  Forall (fun w => is_pattern w = false) ws ->
  unquoted pathname_expansion ws = flat_map word_split ws.
Proof.
  intros Hpe Hws. unfold unquoted.
  induction Hws as [|w ws Hw Hws IH]; [done|]. simpl.
  rewrite IH, (flat_map_fixed _ _ Hpe); [done|].
  by apply word_split_not_pattern.
Qed.

(** The words of a split that are no patterns pass an unquoted expansion
    as they are. *)
Lemma unquoted_words (pathname_expansion : string -> list string)
    (ws : list string) :
  (forall w, is_pattern w = false -> pathname_expansion w = [w]) ->
  Forall (fun w => not_empty w = true /\ string_forallb no_ifs w = true) ws ->
  Forall (fun w => is_pattern w = false) ws ->
  unquoted pathname_expansion ws = ws.
Proof.
  intros Hpe Hws Hnp. rewrite (unquoted_not_pattern _ _ Hpe Hnp).
  by apply flat_map_word_split_fixed.
Qed.

(** What the command substitution makes of the output of the helper,
    when this is words joined by spaces on one line. *)
Lemma ARGS_of_words (pathname_expansion : string -> list string)
    (ws : list string) :
  unquoted pathname_expansion
    [tr_d deleted (unwords ws +:+ String newline EmptyString)]
  = flat_map pathname_expansion
      (flat_map word_split (map (tr_d deleted) ws)).
Proof.
  unfold unquoted. cbn [flat_map]. rewrite app_nil_r.
  rewrite tr_d_app, tr_d_unwords.
  change (tr_d deleted (String newline EmptyString))
    with (String newline EmptyString).
  rewrite word_split_app_sep by done.
  by rewrite word_split_empty, app_nil_r, word_split_unwords_flat.
Qed.

(** When what the helper printed holds no [*] and no [?], the entry point
    receives the words of it, with the deleted characters taken out. *)
Lemma wrapped_entrypoint_words (pathname_expansion : string -> list string)
    (source : environ -> environ)
    (helper : environ -> list string -> string)
    (env : environ) (args : list string) :
  (forall w, is_pattern w = false -> pathname_expansion w = [w]) ->
  string_forallb no_wild
    (helper (source env) ("-c" :: unquoted pathname_expansion args)) = true ->
  wrapped_entrypoint pathname_expansion source helper env args
  = word_split
      (tr_d deleted
         (helper (source env) ("-c" :: unquoted pathname_expansion args))).
Proof.
  intros Hpe Hout. unfold wrapped_entrypoint.
  set (out := helper _ _) in *.
  assert (Hnp : Forall (fun w => is_pattern w = false)
                  (word_split (tr_d deleted out))).
  { apply word_split_not_pattern, not_pattern_forallb.
    apply (string_forallb_and kept no_wild); [apply kept_no_wild_not_glob | |].
    - apply tr_d_deletes.
    - by apply tr_d_forallb. }
  unfold unquoted at 2. cbn [flat_map]. rewrite app_nil_r.
  rewrite (flat_map_fixed _ _ Hpe Hnp).
  apply unquoted_words; [done | apply word_split_words | done].
Qed.

(** *** Arguments that hold none of the deleted characters *)

Lemma map_tr_d_plain (ws : list string) :
  Forall (fun w => plain w = true) ws -> map (tr_d deleted) ws = ws.
Proof.
  induction 1 as [|w ws Hw Hws IH]; [done|]. simpl.
  by rewrite IH, tr_d_kept by (by apply plain_kept).
Qed.

Lemma flat_map_word_split_plain (ws : list string) :
  Forall (fun w => plain w = true) ws -> flat_map word_split ws = ws.
Proof.
  induction 1 as [|w ws Hw Hws IH]; [done|]. simpl.
  by rewrite IH, word_split_plain.
Qed.

Lemma plain_Forall_not_pattern (ws : list string) :
  Forall (fun w => plain w = true) ws ->
  Forall (fun w => is_pattern w = false) ws.
Proof.
  intros H. eapply Forall_impl; [exact H|]. apply plain_not_pattern.
Qed.

Lemma unquoted_app (pathname_expansion : string -> list string)
    (a b : list string) :
  unquoted pathname_expansion (a ++ b)
  = unquoted pathname_expansion a ++ unquoted pathname_expansion b.
Proof. unfold unquoted. apply flat_map_app. Qed.

(** Plain arguments come first and as they are; after them comes what
    the script passes when it is called without arguments. *)
Lemma wrapped_entrypoint_plain_prefix
    (pathname_expansion : string -> list string)
    (source : environ -> environ)
    (address_flags : environ -> list string)
    (env : environ) (args : list string) :
  (forall w, is_pattern w = false -> pathname_expansion w = [w]) ->
  Forall (fun w => plain w = true) args ->
  wrapped_entrypoint pathname_expansion source
    (print_args_then_flags address_flags) env args
  = args
    ++ wrapped_entrypoint pathname_expansion source
         (print_args_then_flags address_flags) env [].
Proof.
  intros Hpe Hargs. unfold wrapped_entrypoint.
  rewrite (unquoted_plain pathname_expansion args Hpe Hargs).
  change (unquoted pathname_expansion []) with (@nil string).
  unfold print_args_then_flags. cbn [tail]. rewrite app_nil_l.
  rewrite !ARGS_of_words.
  rewrite map_app, !flat_map_app, unquoted_app.
  rewrite (map_tr_d_plain args Hargs), (flat_map_word_split_plain args Hargs).
  rewrite (flat_map_fixed _ _ Hpe (plain_Forall_not_pattern args Hargs)).
  by rewrite (unquoted_plain pathname_expansion args Hpe Hargs).
Qed.

Lemma wrapped_entrypoint_plain_all
    (pathname_expansion : string -> list string)
    (source : environ -> environ)
    (address_flags : environ -> list string)
    (env : environ) (args : list string) :
  (forall w, is_pattern w = false -> pathname_expansion w = [w]) ->
  Forall (fun w => plain w = true) args ->
  Forall (fun w => plain w = true) (address_flags (source env)) ->
  wrapped_entrypoint pathname_expansion source
    (print_args_then_flags address_flags) env args
  = args ++ address_flags (source env).
Proof.
  intros Hpe Hargs Hflags.
  rewrite (wrapped_entrypoint_plain_prefix _ _ _ _ _ Hpe Hargs). f_equal.
  unfold wrapped_entrypoint.
  change (unquoted pathname_expansion []) with (@nil string).
  unfold print_args_then_flags. cbn [tail]. rewrite app_nil_l.
  rewrite ARGS_of_words.
  rewrite (map_tr_d_plain _ Hflags), (flat_map_word_split_plain _ Hflags).
  rewrite (flat_map_fixed _ _ Hpe (plain_Forall_not_pattern _ Hflags)).
  by apply unquoted_plain.
Qed.

(** *** Arguments that hold deleted characters *)

Lemma Forall_no_ifs_tr_d (ws : list string) :
  Forall (fun w => string_forallb no_ifs w = true) ws ->
  Forall (fun w => string_forallb no_ifs w = true) (map (tr_d deleted) ws).
Proof.
  induction 1 as [|w ws Hw Hws IH]; simpl; constructor; [|done].
  by apply tr_d_no_ifs.
Qed.

Lemma Forall_filter_not_empty (P : string -> Prop) (ws : list string) :
  Forall P ws -> Forall P (List.filter not_empty ws).
Proof.
  induction 1 as [|w ws Hw Hws IH]; simpl; [done|].
  destruct (not_empty w); [by constructor | done].
Qed.

Lemma Forall_filter_not_empty_self (ws : list string) :
  Forall (fun w => not_empty w = true) (List.filter not_empty ws).
Proof.
  induction ws as [|w ws IH]; simpl; [done|].
  destruct (not_empty w) eqn:Hw; [by constructor | done].
Qed.

Lemma entrypoint_filtered_words
    (pathname_expansion : string -> list string)
    (source : environ -> environ)
    (address_flags : environ -> list string)
    (env : environ) (args : list string) :
  (forall w, is_pattern w = false -> pathname_expansion w = [w]) ->
  Forall (fun w => string_forallb no_ifs w = true
                   /\ is_pattern w = false) args ->
  Forall (fun w => string_forallb no_ifs w = true
                   /\ string_forallb no_wild w = true)
    (address_flags (source env)) ->
  wrapped_entrypoint pathname_expansion source
    (print_args_then_flags address_flags) env args
  = List.filter not_empty
      (map (tr_d deleted) (args ++ address_flags (source env))).
Proof.
  intros Hpe Hargs Hflags.
  set (F := address_flags (source env)) in *.
  assert (Ha1 : Forall (fun w => string_forallb no_ifs w = true) args)
    by (eapply Forall_impl; [exact Hargs|]; by intros w [? ?]).
  assert (Ha2 : Forall (fun w => is_pattern w = false) args)
    by (eapply Forall_impl; [exact Hargs|]; by intros w [? ?]).
  assert (Ha3 : Forall (fun w => string_forallb no_wild w = true) args).
  { eapply Forall_impl; [exact Ha2|]. intros w Hw%not_pattern_forallb.
    eapply string_forallb_impl; [|exact Hw]. apply not_glob_no_wild. }
  assert (Hf1 : Forall (fun w => string_forallb no_ifs w = true) F)
    by (eapply Forall_impl; [exact Hflags|]; by intros w [? ?]).
  assert (Hf2 : Forall (fun w => string_forallb no_wild w = true) F)
    by (eapply Forall_impl; [exact Hflags|]; by intros w [? ?]).
  unfold wrapped_entrypoint.
  rewrite (unquoted_not_pattern _ _ Hpe Ha2).
  rewrite (flat_map_word_split_filter args Ha1).
  unfold print_args_then_flags. cbn [tail]. fold F.
  rewrite ARGS_of_words.
  set (A := List.filter not_empty args).
  assert (Hi : Forall (fun w => string_forallb no_ifs w = true)
                 (map (tr_d deleted) (A ++ F))).
  { apply Forall_no_ifs_tr_d, Forall_app. split; [|done].
    by apply Forall_filter_not_empty. }
  rewrite (flat_map_word_split_filter _ Hi).
  set (W := List.filter not_empty (map (tr_d deleted) (A ++ F))).
  assert (Hw : Forall (fun w => string_forallb no_wild w = true) (A ++ F)).
  { apply Forall_app. split; [|done]. by apply Forall_filter_not_empty. }
  assert (Hnp : Forall (fun w => is_pattern w = false) W).
  { subst W. apply Forall_filter_not_empty.
    clear Hi. induction Hw as [|w ws Hw Hws IH]; simpl; constructor; [|done].
    apply not_pattern_forallb.
    apply (string_forallb_and kept no_wild); [apply kept_no_wild_not_glob | |].
    - apply tr_d_deletes.
    - by apply tr_d_forallb. }
  rewrite (flat_map_fixed _ _ Hpe Hnp).
  rewrite (unquoted_words _ _ Hpe); [| |done].
  - subst W A. rewrite !map_app, !List.filter_app.
    by rewrite filter_map_tr_d_filter.
  - subst W. clear Hnp.
    pose proof (Forall_filter_not_empty_self (map (tr_d deleted) (A ++ F)))
      as Hne.
    pose proof (Forall_filter_not_empty _ _ Hi) as Hi'.
    induction Hne as [|w ws Hw1 Hws1 IH]; [constructor|].
    inversion Hi' as [|? ? Hw2 Hws2]; subst.
    constructor; [done|]. by apply IH.
Qed.

End WrapperFacts.

(** C3 (as amended).  With a helper that prints the arguments and then
    the flags it derives from the environment, arguments that are
    non-empty words free of white space, of the characters [[], []], [,]
    and of the pattern characters [*], [?] reach the entry point
    unmodified and in order, followed only by what the script passes of
    those flags: what it passes when it is called without arguments, and
    the flags themselves when these are such words too. *)
Theorem wrapped_entrypoint_plain_args
    (pathname_expansion : string -> list string)
    (source : Wrapper.environ -> Wrapper.environ)
    (address_flags : Wrapper.environ -> list string)
    (env : Wrapper.environ) (args : list string) :
  (forall w, Wrapper.is_pattern w = false -> pathname_expansion w = [w]) ->
  Forall (fun w => Wrapper.plain w = true) args ->
  Wrapper.wrapped_entrypoint pathname_expansion source
    (Wrapper.print_args_then_flags address_flags) env args
  = args
    ++ Wrapper.wrapped_entrypoint pathname_expansion source
         (Wrapper.print_args_then_flags address_flags) env []
  /\ Wrapper.forwards_unmodified pathname_expansion source
       (Wrapper.print_args_then_flags address_flags) env args
  /\ (Forall (fun w => Wrapper.plain w = true) (address_flags (source env)) ->
      Wrapper.wrapped_entrypoint pathname_expansion source
        (Wrapper.print_args_then_flags address_flags) env args
      = args ++ address_flags (source env)).
Proof.
  intros Hpe Hargs.
  pose proof (wrapped_entrypoint_plain_prefix pathname_expansion source
                address_flags env args Hpe Hargs) as Hprefix.
  split; [done|]. split.
  - eexists. exact Hprefix.
  - intros Hflags. by apply wrapped_entrypoint_plain_all.
Qed.

Lemma wrapped_entrypoint_plain_args_witness :
  Wrapper.wrapped_entrypoint Wrapper.no_match (fun e => e)
    (Wrapper.print_args_then_flags (fun _ => ["--worker0=10.0.0.2:2222"]))
    ∅ ["--batch_size=64"; "--learning_rate=0.01"]
  = ["--batch_size=64"; "--learning_rate=0.01"] ++ ["--worker0=10.0.0.2:2222"].
Proof.
  apply (wrapped_entrypoint_plain_args Wrapper.no_match (fun e => e)
           (fun _ => ["--worker0=10.0.0.2:2222"]) ∅
           ["--batch_size=64"; "--learning_rate=0.01"]).
  - intros w _. reflexivity.
  - repeat constructor.
  - repeat constructor.
Defined.

(** C3, counterexample.  The argument [--layers=[64,32]] reaches the entry
    point as [--layers=6432]; the argument [--name=a b] reaches it as the
    two arguments [--name=a] and [b]; an empty argument does not reach it
    at all. *)
Lemma wrapped_entrypoint_alters_args :
  Wrapper.wrapped_entrypoint Wrapper.no_match (fun e => e)
    (Wrapper.print_args_then_flags (fun _ => [])) ∅ ["--layers=[64,32]"]
  = ["--layers=6432"]
  /\ Wrapper.wrapped_entrypoint Wrapper.no_match (fun e => e)
       (Wrapper.print_args_then_flags (fun _ => [])) ∅ ["--name=a b"]
     = ["--name=a"; "b"]
  /\ Wrapper.wrapped_entrypoint Wrapper.no_match (fun e => e)
       (Wrapper.print_args_then_flags (fun _ => [])) ∅ ["--note="; ""]
     = ["--note="]
  /\ ~ Wrapper.forwards_unmodified Wrapper.no_match (fun e => e)
         (Wrapper.print_args_then_flags (fun _ => [])) ∅ ["--layers=[64,32]"].
Proof.
  split; [reflexivity|]. split; [reflexivity|]. split; [reflexivity|].
  intros [flags H]. vm_compute in H. discriminate H.
Qed.

(** ** Job requirements *)

Section RequirementsFacts.
Import Requirements.
Variable gpu_valid_count : accelerator -> Z -> bool.

Lemma accelerators_complete (k : accelerator) : In k accelerators.
Proof. destruct k; simpl; tauto. Qed.

Lemma counts_valid_lookup (r : JobRequirements) (k : accelerator) (n : Z) :
  counts_valid gpu_valid_count r = true ->
  accelerator_count r k = Some n ->
  valid_count gpu_valid_count k n = true.
Proof.
  unfold counts_valid. rewrite forallb_forall. intros Hall Hk.
  specialize (Hall k (accelerators_complete k)). by rewrite Hk in Hall.
Qed.

(** A TPU count other than 8 fails validation, whatever else the
    requirements hold. *)
Lemma validate_tpu_invalid (allow : bool) (r : JobRequirements)
    (k : accelerator) (n : Z) :
  is_tpu k = true -> accelerator_count r k = Some n -> n <> 8%Z ->
  validate gpu_valid_count allow r = Err InvalidRequirement.
Proof.
  intros Htpu Hk Hn. unfold validate.
  destruct (negative_quantity r); [done|].
  destruct (negb allow && (1 <? length (nonzero_kinds r))); [done|].
  destruct (counts_valid gpu_valid_count r) eqn:Hv; [|done].
  apply (counts_valid_lookup r k n) in Hv; [|done].
  unfold valid_count in Hv. rewrite Htpu in Hv.
  apply Z.eqb_eq in Hv. done.
Qed.

(** The count 8 passes when no other rule fails: no quantity is
    negative, at most one accelerator kind is nonzero (or the executor
    allows several), and the count of every other kind that is set is
    valid. *)
Lemma validate_tpu_valid (allow : bool) (r : JobRequirements)
    (k : accelerator) :
  is_tpu k = true -> accelerator_count r k = Some 8%Z ->
  negative_quantity r = false ->
  allow = true \/ length (nonzero_kinds r) <= 1 ->
  (forall k' n', k' <> k -> accelerator_count r k' = Some n' ->
                 valid_count gpu_valid_count k' n' = true) ->
  validate gpu_valid_count allow r = Ok tt.
Proof.
  intros Htpu Hk Hneg Hkinds Hothers. unfold validate. rewrite Hneg.
  assert (Hhet : negb allow && (1 <? length (nonzero_kinds r)) = false).
  { destruct Hkinds as [->|Hlen]; [done|].
    apply andb_false_iff. right. apply Nat.ltb_ge. lia. }
  rewrite Hhet.
  assert (Hv : counts_valid gpu_valid_count r = true).
  { unfold counts_valid. apply forallb_forall. intros k' _.
    destruct (accelerator_count r k') as [n'|] eqn:Hk'; [|done].
    destruct (decide (k' = k)) as [->|Hne].
    - rewrite Hk in Hk'. injection Hk' as <-.
      unfold valid_count. by rewrite Htpu.
    - by apply Hothers. }
  by rewrite Hv.
Qed.

(** A recognized requirements object sets one accelerator kind. *)
Lemma recognized_one_key (r : JobRequirements) (k k' : accelerator)
    (n n' : Z) :
  recognized r = true ->
  accelerator_count r k = Some n -> accelerator_count r k' = Some n' ->
  k' = k.
Proof.
  unfold recognized, set_kinds, accelerators.
  intros [_ Hone%Nat.eqb_eq]%andb_prop Hk Hk'. revert Hone. simpl.
  destruct (accelerator_count r P100) eqn:E1,
           (accelerator_count r V100) eqn:E2,
           (accelerator_count r P4) eqn:E3,
           (accelerator_count r T4) eqn:E4,
           (accelerator_count r A100) eqn:E5,
           (accelerator_count r TPU_V2) eqn:E6,
           (accelerator_count r TPU_V3) eqn:E7;
    simpl; intros Hone; try discriminate Hone;
    destruct k, k'; congruence.
Qed.

Lemma recognized_not_negative (r : JobRequirements) (k : accelerator) :
  recognized r = true -> accelerator_count r k = Some 8%Z ->
  negative_quantity r = false.
Proof.
  intros Hrec Hk. pose proof Hrec as Hrec'. unfold recognized in Hrec'.
  apply andb_prop in Hrec' as [[Hcpu Hram]%andb_prop _].
  unfold negative_quantity.
  assert (Hc : match cpu r with
               | Some q => negb (Qle_bool 0 q)
               | None => false
               end = false).
  { destruct (cpu r); [|done]. by rewrite Hcpu. }
  assert (Hm : match ram r with
               | Some n => (n <? 0)%Z
               | None => false
               end = false).
  { destruct (ram r); [|done]. apply Z.ltb_ge. by apply Z.leb_le. }
  rewrite Hc, Hm. rewrite !orb_false_l.
  match goal with |- ?b = false => destruct b eqn:Hex; [|done] end.
  apply existsb_exists in Hex as (k' & _ & Hneg).
  destruct (accelerator_count r k') as [n'|] eqn:Hk'; [|done].
  pose proof (recognized_one_key r k k' _ _ Hrec Hk Hk') as ->.
  rewrite Hk in Hk'. injection Hk' as <-. done.
Qed.

Lemma recognized_one_kind (r : JobRequirements) (k : accelerator) (n : Z) :
  recognized r = true -> accelerator_count r k = Some n ->
  length (nonzero_kinds r) <= 1.
Proof.
  intros Hrec Hk.
  assert (Hnone : forall k', k' <> k -> accelerator_count r k' = None).
  { intros k' Hne. destruct (accelerator_count r k') as [n'|] eqn:Hk'; [|done].
    destruct Hne. by apply (recognized_one_key r k k' n n'). }
  unfold nonzero_kinds, accelerators.
  destruct k; simpl;
    repeat match goal with
           | |- context [accelerator_count r ?k'] =>
               first [ rewrite (Hnone k') by done | rewrite Hk ]
           end;
    destruct (negb (n =? 0)%Z); simpl; lia.
Qed.

(** On a recognized requirements object the TPU count 8 passes. *)
Lemma validate_tpu_recognized (allow : bool) (r : JobRequirements)
    (k : accelerator) :
  is_tpu k = true -> accelerator_count r k = Some 8%Z ->
  recognized r = true ->
  validate gpu_valid_count allow r = Ok tt.
Proof.
  intros Htpu Hk Hrec. apply (validate_tpu_valid allow r k Htpu Hk).
  - by apply (recognized_not_negative r k).
  - right. by apply (recognized_one_kind r k 8%Z).
  - intros k' n' Hne Hk'. destruct Hne.
    by apply (recognized_one_key r k k' 8%Z n').
Qed.

End RequirementsFacts.

(** C4.  A requirements object that requests [TPU_V2] or [TPU_V3] with
    a count other than 8 fails validation with [InvalidRequirement], and a
    launch with it fails before any network call: the world, with its log
    of network calls, is unchanged.  With the count 8, validation of a
    requirements object succeeds: one with a [cpu] and a [ram] that are
    not negative and one accelerator key, as the requirements objects
    are. *)
Theorem validate_tpu_count
    (gpu_valid_count : Requirements.accelerator -> Z -> bool)
    (allow : bool) (r : Requirements.JobRequirements)
    (k : Requirements.accelerator) (n : Z) :
  Requirements.is_tpu k = true ->
  Requirements.accelerator_count r k = Some n ->
  (n <> 8%Z ->
   Requirements.validate gpu_valid_count allow r
   = Err Requirements.InvalidRequirement
   /\ forall (native : Type)
        (accept : Xm.backend_tag -> Xm.Job -> result Xm.launch_error native)
        (j : Xm.Job) (w : Xm.World),
       Xm.requirements (Xm.executor j) = r ->
       Xm.allow_heterogeneous (Xm.executor j) = allow ->
       Xm.launch accept gpu_valid_count j w
       = (Err (Xm.Requirement Requirements.InvalidRequirement), w))
  /\ (n = 8%Z ->
      Requirements.recognized r = true ->
      Requirements.validate gpu_valid_count allow r = Ok tt).
Proof.
  intros Htpu Hk. split.
  - intros Hn.
    pose proof (validate_tpu_invalid gpu_valid_count allow r k n Htpu Hk Hn) as Hv.
    split; [done|].
    intros native accept j w Hr Ha. unfold Xm.launch.
    by rewrite Hr, Ha, Hv.
  - intros -> Hrec.
    by apply (validate_tpu_recognized gpu_valid_count allow r k).
Qed.

Lemma validate_tpu_count_witness :
  Requirements.validate (fun _ _ => true) false
    (Requirements.only Requirements.TPU_V2 4)
  = Err Requirements.InvalidRequirement
  /\ Requirements.validate (fun _ _ => true) false
       {| Requirements.cpu := Some (1 # 2)%Q;
          Requirements.ram := Some 1024%Z;
          Requirements.accelerator_count := fun k =>
            match k with
            | Requirements.TPU_V3 => Some 8%Z
            | _ => None
            end |}
     = Ok tt.
Proof.
  split.
  - apply (validate_tpu_count (fun _ _ => true) false
             (Requirements.only Requirements.TPU_V2 4)
             Requirements.TPU_V2 4); [reflexivity | reflexivity | lia].
  - apply (validate_tpu_count (fun _ _ => true) false
             {| Requirements.cpu := Some (1 # 2)%Q;
                Requirements.ram := Some 1024%Z;
                Requirements.accelerator_count := fun k =>
                  match k with
                  | Requirements.TPU_V3 => Some 8%Z
                  | _ => None
                  end |}
             Requirements.TPU_V3 8);
      reflexivity.
Defined.

(** ** Work units, status and experiments *)

Section LayerFacts.
Import Xm.
Context {native : Type}.
Variable status_of_native : backend_tag -> native -> Status.
Variable accept : backend_tag -> Job -> result launch_error native.
Variable gpu_valid_count : Requirements.accelerator -> Z -> bool.

Abbreviation launch_unit := (Xm.launch_unit accept gpu_valid_count).
Abbreviation refresh := (Xm.refresh status_of_native).
Abbreviation step := (Xm.step status_of_native accept gpu_valid_count).
Abbreviation run := (Xm.run status_of_native accept gpu_valid_count).

Lemma launch_unit_index (u : WorkUnit) (w : World (native := native)) :
  unit_index (launch_unit u w).1 = unit_index u.
Proof.
  unfold Xm.launch_unit. destruct (unit_launch u); [|done..].
  by destruct (launch accept gpu_valid_count (unit_job u) w) as [[h|err] w'].
Qed.

Lemma refresh_index (u : WorkUnit) (w : World (native := native)) :
  unit_index (refresh u w).1 = unit_index u.
Proof. unfold Xm.refresh. by destruct (unit_launch u). Qed.

Lemma at_unit_indices
    (f : WorkUnit -> World (native := native) -> WorkUnit * World)
    (i : nat) (e : Experiment) (w : World) :
  (forall u w, unit_index (f u w).1 = unit_index u) ->
  unit_index <$> work_units (at_unit f i e w).1 = unit_index <$> work_units e.
Proof.
  intros Hf. unfold at_unit.
  destruct (work_units e !! i) as [u|] eqn:Hu; [|done].
  specialize (Hf u w). destruct (f u w) as [u' w']. simpl in *.
  rewrite list_fmap_insert, Hf.
  apply list_insert_id. by rewrite list_lookup_fmap, Hu.
Qed.

Lemma fmap_length_eq {A B} (f : A -> B) (l1 l2 : list A) :
  f <$> l1 = f <$> l2 -> length l1 = length l2.
Proof. intros H. by rewrite <- (length_fmap f l1), H, length_fmap. Qed.

(** Launches, refreshes and backend moves leave the indices alone; an
    [add] appends the unit with the next index. *)
Lemma step_indices (e : Experiment) (w : World) (ev : event) :
  well_indexed e ->
  let '(o, e', _) := step e w ev in
  well_indexed e'
  /\ match o with
     | Some u => is_add ev = true
                 /\ unit_index u = length (work_units e)
                 /\ length (work_units e') = S (length (work_units e))
     | None => is_add ev = false
               /\ length (work_units e') = length (work_units e)
     end.
Proof.
  intros Hwf. destruct ev as [j|i|i|h s]; simpl.
  - unfold well_indexed. simpl.
    rewrite fmap_app, length_app, Hwf. simpl.
    rewrite Nat.add_1_r, seq_S. simpl. done.
  - pose proof (at_unit_indices launch_unit i e w launch_unit_index) as H.
    destruct (at_unit launch_unit i e w) as [e' w']. simpl in H.
    pose proof (fmap_length_eq _ _ _ H) as Hlen.
    unfold well_indexed. by rewrite H, Hlen.
  - pose proof (at_unit_indices refresh i e w refresh_index) as H.
    destruct (at_unit refresh i e w) as [e' w']. simpl in H.
    pose proof (fmap_length_eq _ _ _ H) as Hlen.
    unfold well_indexed. by rewrite H, Hlen.
  - done.
Qed.

Lemma run_indices (evs : list event) (e : Experiment) (w : World) :
  well_indexed e ->
  let '(us, e', _) := run evs e w in
  unit_index <$> us = seq (length (work_units e)) (add_calls evs)
  /\ well_indexed e'
  /\ length (work_units e') = length (work_units e) + add_calls evs.
Proof.
  revert e w. induction evs as [|ev evs IH]; intros e w Hwf.
  - simpl. unfold add_calls. simpl. split; [done|]. split; [done|lia].
  - cbn [Xm.run].
    pose proof (step_indices e w ev Hwf) as Hstep.
    destruct (step e w ev) as [[o e1] w1]. destruct Hstep as [Hwf1 Ho].
    specialize (IH e1 w1 Hwf1).
    destruct (run evs e1 w1) as [[us e2] w2].
    destruct IH as (Hus & Hwf2 & Hlen).
    unfold add_calls in *. cbn [List.filter].
    destruct o as [u|].
    + destruct Ho as (Hadd & Hu & Hl). rewrite Hadd. cbn [length seq].
      rewrite fmap_cons, Hus, Hu, Hl. split; [done|]. split; [done|lia].
    + destruct Ho as (Hadd & Hl). rewrite Hadd.
      rewrite Hus, Hl. split; [done|]. split; [done|lia].
Qed.

(** *** The status query *)

Lemma query_status_twice (h : Handle) (w : World) :
  (query status_of_native h (query status_of_native h w).2).1
  = (query status_of_native h w).1.
Proof. reflexivity. Qed.

Lemma read_status_set_status (s : Status) (u : WorkUnit) (w : World) :
  read_status status_of_native (set_status s u) w
  = read_status status_of_native u w.
Proof.
  unfold read_status, Xm.refresh. simpl. by destruct (unit_launch u).
Qed.

End LayerFacts.

(** C5.  The work units that N [add] calls on a new experiment return
    carry the indices 0 to N-1 in call order, and sit in the experiment in
    that order, whatever launches, status refreshes and backend moves
    happen between the calls. *)
Theorem add_indices_in_call_order {native : Type}
    (status_of_native : Xm.backend_tag -> native -> Xm.Status)
    (accept : Xm.backend_tag -> Xm.Job -> result Xm.launch_error native)
    (gpu_valid_count : Requirements.accelerator -> Z -> bool)
    (evs : list (Xm.event (native := native)))
    (id : nat) (title : string) (w : Xm.World) :
  Xm.unit_index
    <$> (Xm.run status_of_native accept gpu_valid_count evs
           (Xm.new_experiment id title) w).1.1
  = seq 0 (Xm.add_calls evs)
  /\ Xm.unit_index
       <$> Xm.work_units
             (Xm.run status_of_native accept gpu_valid_count evs
                (Xm.new_experiment id title) w).1.2
     = seq 0 (Xm.add_calls evs).
Proof.
  pose proof (run_indices status_of_native accept gpu_valid_count evs
                (Xm.new_experiment id title) w eq_refl) as H.
  destruct (Xm.run _ _ _ evs _ w) as [[us e'] w'].
  destruct H as (Hus & Hwf & Hlen). simpl in *.
  split; [done|]. unfold Xm.well_indexed in Hwf. by rewrite Hwf, Hlen.
Qed.

(** C6.  For every status, and so for the status of every work unit,
    [is_completed] and [is_failed] are never both true; both are false
    for [Pending] and for [Running]. *)
Theorem status_views_exclusive :
  (forall s : Xm.Status, Xm.is_completed s && Xm.is_failed s = false)
  /\ (forall u : Xm.WorkUnit,
        Xm.is_completed (Xm.get_status u) && Xm.is_failed (Xm.get_status u)
        = false)
  /\ Xm.is_completed Xm.Pending = false /\ Xm.is_failed Xm.Pending = false
  /\ Xm.is_completed Xm.Running = false /\ Xm.is_failed Xm.Running = false.
Proof.
  split; [by intros []|]. split; [|done].
  intros u. by destruct (Xm.get_status u).
Qed.

(** C7.  A query leaves the job table of the backends as it was, and a
    second query right after it returns the same status.  The status read
    through [refresh] is the result of the executor's query on the current
    backend state: it follows a move of the backend, and it does not depend
    on what was written to the cached status. *)
Theorem query_idempotent {native : Type}
    (status_of_native : Xm.backend_tag -> native -> Xm.Status) :
  (forall (h : Xm.Handle) (w : Xm.World),
      (Xm.query status_of_native h (Xm.query status_of_native h w).2).1
      = (Xm.query status_of_native h w).1
      /\ Xm.job_state (Xm.query status_of_native h w).2 = Xm.job_state w
      /\ Xm.next_job (Xm.query status_of_native h w).2 = Xm.next_job w)
  /\ (forall (i : nat) (j : Xm.Job) (h : Xm.Handle) (c : Xm.Status)
             (w : Xm.World),
        Xm.read_status status_of_native
          {| Xm.unit_index := i; Xm.unit_job := j;
             Xm.unit_launch := Xm.Submitted h; Xm.cached_status := c |} w
        = (Xm.query status_of_native h w).1)
  /\ (forall (s : Xm.Status) (u : Xm.WorkUnit) (w : Xm.World),
        Xm.read_status status_of_native (Xm.set_status s u) w
        = Xm.read_status status_of_native u w)
  /\ (forall (h : Xm.Handle) (s : native) (w : Xm.World),
        (Xm.query status_of_native h (Xm.move h s w)).1
        = status_of_native h.1 s).
Proof.
  split; [|split; [|split]].
  - intros h w. split; [apply query_status_twice|]. done.
  - done.
  - apply read_status_set_status.
  - intros h s w. unfold Xm.query, Xm.move. simpl.
    by rewrite decide_True.
Qed.

(** ** Registry *)

Section RegistryFacts.
Import Xm.



End RegistryFacts.


(** ** The notebook *)

Section NotebookFacts.
Import Py Xm Notebook.
Context {native : Type}.
Variable status_of_native : backend_tag -> native -> Status.
Variable accept : backend_tag -> Job -> result launch_error native.
Variable build : ExecutableSpec -> ExecutorSpec -> option string.
Variable gpu_valid_count : Requirements.accelerator -> Z -> bool.
Variable outcome : nat -> string -> result exception object.

Abbreviation kernel := (Notebook.kernel (native := native)).
Abbreviation M := (Notebook.M (native := native)).

Section Frame.
Variable P : kernel -> Prop.
Hypothesis P_stable : stable P.

Lemma preserves_ret {A} (a : A) : preserves P (ret a).
Proof. by intros k Hk. Qed.

Lemma preserves_raise {A} (e : exception) : preserves P (raise (A := A) e).
Proof. by intros k Hk. Qed.

Lemma preserves_bind {A B} (m : M A) (f : A -> M B) :
  preserves P m -> (forall a, preserves P (f a)) -> preserves P (bind m f).
Proof.
  intros Hm Hf k Hk. unfold bind. specialize (Hm k Hk).
  destruct (m k) as [[a|e] k']; simpl in *; [by apply Hf | done].
Qed.

Lemma preserves_load (name : string) : preserves P (load name).
Proof.
  intros k Hk. unfold load. by destruct (user_ns k !! name).
Qed.

Lemma preserves_outside (label : string) :
  preserves P (outside outcome label).
Proof. intros k Hk. by apply (P_stable k). Qed.

Lemma preserves_shell (command : string) : preserves P (shell command).
Proof. intros k Hk. by apply (P_stable k). Qed.

Lemma preserves_print (os : list object) : preserves P (print os).
Proof. intros k Hk. by apply (P_stable k). Qed.

Lemma preserves_import (qualified name : string) :
  store_safe P name -> preserves P (import outcome qualified name).
Proof.
  intros Hs. apply preserves_bind; [apply preserves_outside|].
  intros _. apply Hs.
Qed.

Lemma preserves_as_module (q : string) (o : object) :
  preserves P (as_module q o).
Proof.
  destruct o; try apply preserves_raise. simpl.
  destruct (String.eqb name q); [apply preserves_ret | apply preserves_raise].
Qed.

Lemma preserves_as_experiment (attr : string) (o : object) :
  preserves P (as_experiment attr o).
Proof. destruct o; (apply preserves_ret || apply preserves_raise). Qed.

Lemma preserves_as_executable (o : object) : preserves P (as_executable o).
Proof. destruct o; (apply preserves_ret || apply preserves_raise). Qed.

Lemma preserves_as_executor (o : object) : preserves P (as_executor o).
Proof. destruct o; (apply preserves_ret || apply preserves_raise). Qed.

Lemma preserves_as_dict (o : object) : preserves P (as_dict o).
Proof.
  destruct o as [v| | | | | |]; try apply preserves_raise.
  destruct v; (apply preserves_ret || apply preserves_raise).
Qed.

Lemma preserves_as_items (o : object) : preserves P (as_items o).
Proof.
  destruct o as [v| | | | | |]; try apply preserves_raise.
  destruct v; (apply preserves_ret || apply preserves_raise).
Qed.

Lemma preserves_as_pools (kvs : dict value) : preserves P (as_pools kvs).
Proof.
  induction kvs as [|[key v] kvs IH]; simpl; [apply preserves_ret|].
  destruct v; try apply preserves_raise.
  apply preserves_bind; [done|]. intros rest. apply preserves_ret.
Qed.

Lemma preserves_create (title : string) :
  preserves P (xm_local_create_experiment title).
Proof.
  apply preserves_bind; [apply preserves_load|]. intros m.
  apply preserves_bind; [apply preserves_as_module|]. intros _.
  intros k Hk. unfold create_experiment, create.
  destruct (reachable (registry k)) eqn:Hr; simpl;
    by apply (P_stable k).
Qed.

Lemma preserves_experiment_add (id : nat) (j : Job) :
  preserves P (experiment_add id j).
Proof.
  intros k Hk. unfold experiment_add.
  destruct (heap k !! id); [|done]. by apply (P_stable k).
Qed.

Lemma preserves_experiment_exit (id : nat) :
  preserves P (experiment_exit accept gpu_valid_count id).
Proof.
  intros k Hk. unfold experiment_exit.
  destruct (heap k !! id) as [e|]; [|done].
  destruct (close accept gpu_valid_count e (world k)) as [e' w'].
  by apply (P_stable k).
Qed.

Lemma preserves_experiment_package (id : nat) (s : ExecutableSpec)
    (xs : ExecutorSpec) :
  preserves P (experiment_package build id s xs).
Proof.
  intros k Hk. unfold experiment_package.
  destruct (package_one build s xs (world k)) as [[x|err] w'];
    by apply (P_stable k).
Qed.

Lemma preserves_async_with (title name : string) (body : M unit) :
  store_safe P name -> preserves P body ->
  preserves P
    (async_with_experiment accept gpu_valid_count title name body).
Proof.
  intros Hs Hb. apply preserves_bind; [apply preserves_create|].
  intros id. apply preserves_bind; [apply Hs|]. intros _.
  intros k Hk. specialize (Hb k Hk). destruct (body k) as [r k1].
  pose proof (preserves_experiment_exit id k1 Hb) as He.
  by destruct (experiment_exit accept gpu_valid_count id k1).
Qed.

Lemma preserves_for_in (name : string) (items : list value)
    (body : M unit) :
  store_safe P name -> preserves P body ->
  preserves P (for_in name items body).
Proof.
  intros Hs Hb. induction items as [|x items IH]; simpl.
  - apply preserves_ret.
  - apply preserves_bind; [apply Hs|]. intros _.
    apply preserves_bind; [done|]. by intros _.
Qed.

End Frame.

(** *** The two invariants *)

Lemma unbound_stable (n : string) : stable (native := native) (unbound n).
Proof. intros k k' Hns _. unfold unbound. by rewrite Hns. Qed.

Lemma ready_stable : stable (native := native) ready.
Proof. intros k k' Hns Hr. unfold ready. by rewrite Hns, Hr. Qed.

Lemma unbound_store_safe (n name : string) :
  name <> n -> store_safe (native := native) (unbound n) name.
Proof.
  intros Hne o k Hk. unfold unbound in *. simpl.
  by rewrite lookup_insert_ne.
Qed.

Lemma ready_store_safe (name : string) :
  name <> "xm_local" -> store_safe (native := native) ready name.
Proof.
  intros Hne o k [Hk Hr]. split; [|done]. simpl.
  by rewrite lookup_insert_ne.
Qed.

Ltac frame_side :=
  first
    [ apply unbound_stable
    | apply ready_stable
    | apply unbound_store_safe; discriminate
    | apply ready_store_safe; discriminate ].

Ltac frame_step :=
  lazymatch goal with
  | |- preserves _ (bind _ _) => apply preserves_bind; [|intros ?]
  | |- preserves _ (ret _) => apply preserves_ret
  | |- preserves _ (raise _) => apply preserves_raise
  | |- preserves _ (load _) => apply preserves_load
  | |- preserves _ (store _ _) =>
      first [ apply unbound_store_safe | apply ready_store_safe ];
      discriminate
  | |- preserves _ (outside _ _) => apply preserves_outside; frame_side
  | |- preserves _ (shell _) => apply preserves_shell; frame_side
  | |- preserves _ (print _) => apply preserves_print; frame_side
  | |- preserves _ (import _ _ _) => apply preserves_import; frame_side
  | |- preserves _ (as_module _ _) => apply preserves_as_module
  | |- preserves _ (as_experiment _ _) => apply preserves_as_experiment
  | |- preserves _ (as_executable _) => apply preserves_as_executable
  | |- preserves _ (as_executor _) => apply preserves_as_executor
  | |- preserves _ (as_dict _) => apply preserves_as_dict
  | |- preserves _ (as_items _) => apply preserves_as_items
  | |- preserves _ (as_pools _) => apply preserves_as_pools
  | |- preserves _ (experiment_add _ _) =>
      apply preserves_experiment_add; frame_side
  | |- preserves _ (experiment_package _ _ _ _) =>
      apply preserves_experiment_package; frame_side
  | |- preserves _ (async_with_experiment _ _ _ _ _) =>
      apply preserves_async_with; [frame_side | frame_side |]
  | |- preserves _ (for_in _ _ _) =>
      apply preserves_for_in; [frame_side |]
  | |- preserves _ (add_job _ _) => unfold add_job
  | |- preserves _ caip_t4 => unfold caip_t4
  | |- preserves _ (package_cifar10 _ _) => unfold package_cifar10
  | |- preserves _ (match ?x with _ => _ end) => destruct x
  end.

Ltac frame := repeat frame_step.

(** No cell above the grid-search cell binds [trials]. *)
Lemma cells_before_grid_search_unbound :
  Forall (preserves (unbound "trials"))
    (cells_before_grid_search accept build gpu_valid_count outcome).
Proof.
  unfold cells_before_grid_search.
  repeat lazymatch goal with
         | |- Forall _ (_ :: _) => constructor
         | |- Forall _ [] => constructor
         end.
  - unfold cell_license. frame.
  - unfold cell_install. frame.
  - unfold cell_gcp_project. frame.
  - unfold cell_bucket. frame.
  - unfold cell_flags. frame.
  - unfold cell_imports. frame.
  - unfold cell_create. frame.
  - unfold cell_package. frame.
  - unfold cell_executor. frame.
  - unfold cell_single_job. frame.
  - unfold cell_hyperparameters. frame.
Qed.

Lemma run_cells_preserves (P : kernel -> Prop) (cells : list (M unit)) :
  Forall (preserves P) cells -> preserves P (run_cells cells).
Proof.
  induction 1 as [|c cells Hc Hcs IH]; simpl.
  - apply preserves_ret.
  - apply preserves_bind; [done|]. by intros _.
Qed.

Lemma cell_hyperparameters_ready :
  preserves ready (cell_hyperparameters (native := native) outcome).
Proof. unfold cell_hyperparameters. frame. Qed.

Lemma cell_single_job_preserves_ready :
  preserves ready (cell_single_job accept gpu_valid_count).
Proof. unfold cell_single_job. frame. Qed.

(** *** Entering an experiment *)

Lemma bind_ok {A B} (m : M A) (f : A -> M B) (k k' : kernel) (a : A) :
  m k = (Ok a, k') -> bind m f k = f a k'.
Proof. intros H. unfold bind. by rewrite H. Qed.

Lemma bind_err {A B} (m : M A) (f : A -> M B) (k k' : kernel)
    (e : exception) :
  m k = (Err e, k') -> bind m f k = (Err e, k').
Proof. intros H. unfold bind. by rewrite H. Qed.

Lemma bind_inv {A B} (m : M A) (f : A -> M B) (k k' : kernel) (b : B) :
  bind m f k = (Ok b, k') ->
  exists a k1, m k = (Ok a, k1) /\ f a k1 = (Ok b, k').
Proof.
  unfold bind. destruct (m k) as [[a|e] k1]; [|done]. by exists a, k1.
Qed.

Lemma create_ready (title : string) (k : kernel) :
  ready k ->
  xm_local_create_experiment title k
  = (Ok (next_id (registry k)),
     {| user_ns := user_ns k;
        heap := <[next_id (registry k)
                  := new_experiment (next_id (registry k)) title]> (heap k);
        stdout := stdout k; calls := calls k;
        registry := (create title (registry k)).2;
        world := world k |}).
Proof.
  intros [Hx Hr]. unfold xm_local_create_experiment.
  rewrite (bind_ok _ _ k k (Imported "xmanager.xm_local"))
    by (unfold load; by rewrite Hx).
  rewrite (bind_ok _ _ k k tt) by done.
  unfold create_experiment, create. rewrite Hr. done.
Qed.

(** A creation call that returns found the library imported and the
    registry in reach. *)
Lemma create_ok_ready (title : string) (k k' : kernel) (id : nat) :
  xm_local_create_experiment title k = (Ok id, k') -> ready k.
Proof.
  unfold xm_local_create_experiment. intros H.
  apply bind_inv in H as (m & k1 & Hload & H).
  apply bind_inv in H as ([] & k2 & Hmod & H).
  unfold load in Hload.
  destruct (user_ns k !! "xm_local") as [o|] eqn:Hx; [|done].
  injection Hload as -> <-.
  destruct m; try done. simpl in Hmod.
  destruct (String.eqb name "xmanager.xm_local") eqn:Hn; [|done].
  apply String.eqb_eq in Hn as ->. injection Hmod as <-.
  unfold create_experiment, create in H.
  destruct (reachable (registry k)) eqn:Hr; [|done].
  by split.
Qed.

Lemma async_with_ok_ready (title name : string) (body : M unit)
    (k k' : kernel) :
  async_with_experiment accept gpu_valid_count title name body k
  = (Ok tt, k') ->
  ready k.
Proof.
  unfold async_with_experiment. intros H.
  apply bind_inv in H as (id & k1 & Hc & _).
  by apply create_ok_ready in Hc.
Qed.

Lemma async_with_ready (title name : string) (body : M unit) (k : kernel) :
  ready k ->
  async_with_experiment accept gpu_valid_count title name body k
  = ((body (entered name title k)).1,
     (experiment_exit accept gpu_valid_count (next_id (registry k))
        (body (entered name title k)).2).2).
Proof.
  intros Hk. unfold async_with_experiment.
  rewrite (bind_ok _ _ _ _ _ (create_ready title k Hk)).
  unfold bind at 1. cbn [store]. unfold entered.
  destruct (body _) as [r k1]. simpl.
  by destruct (experiment_exit accept gpu_valid_count _ k1).
Qed.

(** *** What the cell above the grid-search cell binds *)

Lemma load_inv (name : string) (k k' : kernel) (o : object) :
  load name k = (Ok o, k') -> k' = k /\ user_ns k !! name = Some o.
Proof.
  unfold load. destruct (user_ns k !! name) as [o'|]; [|done].
  by intros [= -> ->].
Qed.

Lemma outside_ns (label : string) (k k' : kernel)
    (r : result exception object) :
  outside outcome label k = (r, k') -> user_ns k' = user_ns k.
Proof. by intros [= _ <-]. Qed.

Lemma import_inv (qualified name : string) (k k' : kernel) :
  import outcome qualified name k = (Ok tt, k') ->
  user_ns k' = <[name := Imported qualified]> (user_ns k).
Proof.
  unfold import. intros (o & k1 & Ho & Hs)%bind_inv.
  apply outside_ns in Ho. injection Hs as <-. simpl. by rewrite Ho.
Qed.

Lemma as_dict_inv (o : object) (k k' : kernel) (d : dict value) :
  as_dict o k = (Ok d, k') -> k' = k /\ o = Data (VDict d).
Proof.
  destruct o as [v| | | | | |]; try done. destruct v; try done.
  by intros [= -> ->].
Qed.

Lemma as_pools_inv (kvs : dict value) (k k' : kernel)
    (pools : dict (list value)) :
  as_pools kvs k = (Ok pools, k') ->
  k' = k /\ kvs = map (fun kv => (kv.1, VList kv.2)) pools.
Proof.
  revert pools k'. induction kvs as [|[key v] kvs IH]; intros pools k'; simpl.
  - by intros [= <- <-].
  - destruct v; try done.
    intros (rest & k1 & Hrest & Hret)%bind_inv.
    apply IH in Hrest as [-> ->]. injection Hret as <- <-. done.
Qed.

Lemma map_pools_inj (p q : dict (list value)) :
  map (fun kv => (kv.1, VList kv.2)) p = map (fun kv => (kv.1, VList kv.2)) q ->
  p = q.
Proof.
  revert q. induction p as [|[k1 l1] p IH]; intros [|[k2 l2] q]; simpl;
    try done.
  intros [= -> -> H]. by rewrite (IH q H).
Qed.

(** When the expansion cell ends normally it has bound [hyperparameters]
    to the expansion of the sweep. *)
Lemma cell_hyperparameters_binds (k k' : kernel) :
  cell_hyperparameters outcome k = (Ok tt, k') ->
  user_ns k' !! "hyperparameters"
  = Some (Data (VList (map dict_object Sweep.hyperparameters))).
Proof.
  unfold cell_hyperparameters. intros H.
  apply bind_inv in H as ([] & k1 & [= <-] & H).
  apply bind_inv in H as (o & k2 & [-> _]%load_inv & H).
  apply bind_inv in H as (i & k3 & [-> Hi]%load_inv & H).
  cbn [store user_ns] in Hi. rewrite lookup_insert_eq in Hi.
  injection Hi as <-.
  apply bind_inv in H as (kvs & k4 & [-> [= <-]]%as_dict_inv & H).
  apply bind_inv in H as (pools & k5 & [-> Hp]%as_pools_inv & H).
  apply (map_pools_inj Sweep.inputs pools) in Hp as <-.
  apply bind_inv in H as ([] & k6 & [= <-] & H).
  apply bind_inv in H as ([] & k7 & Himp%import_inv & H).
  apply bind_inv in H as (o1 & k8 & [-> _]%load_inv & H).
  apply bind_inv in H as (o2 & k9 & [-> _]%load_inv & H).
  injection H as <-. cbn [user_ns]. rewrite Himp.
  rewrite lookup_insert_ne by discriminate.
  cbn [user_ns]. by rewrite lookup_insert_eq.
Qed.

(** *** The grid-search cell *)

Lemma exit_entered (name title : string) (k : kernel) :
  experiment_exit accept gpu_valid_count (next_id (registry k))
    (entered name title k)
  = (Ok tt,
     {| user_ns := user_ns (entered name title k);
        heap := <[next_id (registry k)
                  := closed_empty (next_id (registry k)) title]> (heap k);
        stdout := stdout k; calls := calls k;
        registry := registry (entered name title k);
        world := world k |}).
Proof.
  unfold experiment_exit, entered. cbn [heap world].
  rewrite lookup_insert_eq. unfold close, new_experiment. cbn.
  by rewrite insert_insert_eq.
Qed.

(** In a state where [trials] is unbound and the creation call returns,
    the cell raises [NameError] at the loop header: the experiment it
    created is closed without a work unit, the other experiments and the
    backends are as they were. *)
Lemma grid_search_unbound_trials (k : kernel) :
  unbound "trials" k -> ready k ->
  (cell_grid_search accept gpu_valid_count k).1 = Err (NameError "trials")
  /\ heap (cell_grid_search accept gpu_valid_count k).2
     = <[next_id (registry k)
         := closed_empty (next_id (registry k)) "cifar10"]> (heap k)
  /\ world (cell_grid_search accept gpu_valid_count k).2 = world k.
Proof.
  intros Hu Hr. unfold cell_grid_search.
  rewrite (async_with_ready _ _ _ k Hr).
  assert (Hload : load "trials" (entered "experiment" "cifar10" k)
                  = (Err (NameError "trials"), entered "experiment" "cifar10" k)).
  { unfold load. cbn [user_ns entered].
    rewrite lookup_insert_ne by discriminate.
    unfold unbound in Hu. by rewrite Hu. }
  rewrite (bind_err _ _ _ _ _ Hload). cbn [fst snd].
  rewrite exit_entered. done.
Qed.

Lemma run_cells_app (cs1 cs2 : list (M unit)) (k : kernel) :
  run_cells (cs1 ++ cs2) k = bind (run_cells cs1) (fun _ => run_cells cs2) k.
Proof.
  revert k. induction cs1 as [|c cs1 IH]; intros k; [done|].
  cbn [app run_cells]. unfold bind.
  destruct (c k) as [[[]|e] k1]; [|done]. rewrite IH. done.
Qed.

(** When the cells above the grid-search cell all end normally, the
    creation call of the grid-search cell will return, and
    [hyperparameters] is bound to the expansion. *)
Lemma cells_before_grid_search_ready (k0 k : kernel) :
  run_cells (cells_before_grid_search accept build gpu_valid_count outcome) k0
  = (Ok tt, k) ->
  ready k
  /\ user_ns k !! "hyperparameters"
     = Some (Data (VList (map dict_object Sweep.hyperparameters))).
Proof.
  intros H.
  change (cells_before_grid_search accept build gpu_valid_count outcome)
    with ([ cell_license; cell_install; cell_gcp_project outcome;
            cell_bucket outcome; cell_flags outcome; cell_imports outcome;
            cell_create accept gpu_valid_count; cell_package build outcome;
            cell_executor ]
          ++ [ cell_single_job accept gpu_valid_count;
               cell_hyperparameters outcome ]) in H.
  rewrite run_cells_app in H.
  apply bind_inv in H as ([] & k9 & _ & H). cbn [run_cells] in H.
  apply bind_inv in H as ([] & k10 & Hjob & H).
  apply bind_inv in H as ([] & k11 & Hhyp & H).
  injection H as <-.
  pose proof (async_with_ok_ready _ _ _ _ _ Hjob) as Hr9.
  pose proof (cell_single_job_preserves_ready k9 Hr9) as Hr10.
  rewrite Hjob in Hr10.
  pose proof (cell_hyperparameters_ready k10 Hr10) as Hr11.
  rewrite Hhyp in Hr11. split; [done|].
  by apply (cell_hyperparameters_binds k10).
Qed.

End NotebookFacts.

(** C10.  Run from a new kernel in their written order, the cells above
    the grid-search cell leave [trials] unbound, however they end.  When
    each of them ends normally, the expansion cell has bound
    [hyperparameters], and the grid-search cell raises [NameError] for
    [trials] before any job is added: the experiment it created is closed
    without a work unit, and the other experiments and the backends are as
    they were. *)
Theorem grid_search_cell_name_error {native : Type}
    (accept : Xm.backend_tag -> Xm.Job -> result Xm.launch_error native)
    (build : Xm.ExecutableSpec -> Xm.ExecutorSpec -> option string)
    (gpu_valid_count : Requirements.accelerator -> Z -> bool)
    (outcome : nat -> string -> result Notebook.exception Notebook.object)
    (reg : Xm.Registry) (w : Xm.World (native := native)) :
  let before :=
    Notebook.run_cells
      (Notebook.cells_before_grid_search accept build gpu_valid_count outcome)
      (Notebook.new_kernel reg w) in
  Notebook.unbound "trials" before.2
  /\ (before.1 = Ok tt ->
      Notebook.user_ns before.2 !! "hyperparameters"
      = Some (Notebook.Data
                (Py.VList (map Notebook.dict_object Sweep.hyperparameters)))
      /\ (Notebook.cell_grid_search accept gpu_valid_count before.2).1
         = Err (Notebook.NameError "trials")
      /\ Notebook.heap
           (Notebook.cell_grid_search accept gpu_valid_count before.2).2
         = <[Xm.next_id (Notebook.registry before.2)
             := Notebook.closed_empty
                  (Xm.next_id (Notebook.registry before.2)) "cifar10"]>
             (Notebook.heap before.2)
      /\ Notebook.world
           (Notebook.cell_grid_search accept gpu_valid_count before.2).2
         = Notebook.world before.2).
Proof.
  intros before.
  assert (Hu : Notebook.unbound "trials" before.2).
  { apply (run_cells_preserves (Notebook.unbound "trials")).
    - apply cells_before_grid_search_unbound.
    - reflexivity. }
  split; [done|]. intros Hok.
  destruct (cells_before_grid_search_ready accept build gpu_valid_count
              outcome (Notebook.new_kernel reg w) before.2) as [Hr Hh].
  { subst before. destruct (Notebook.run_cells _ _) as [r k]. simpl in *.
    by rewrite Hok. }
  split; [done|]. by apply grid_search_unbound_trials.
Qed.

Lemma grid_search_cell_name_error_witness :
  (Notebook.run_cells
     (Notebook.cells_before_grid_search Notebook.sample_accept
        Notebook.sample_build Notebook.sample_gpu_valid_count
        Notebook.sample_outcome)
     Notebook.sample_kernel).1
  = Ok tt
  /\ (Notebook.cell_grid_search Notebook.sample_accept
       Notebook.sample_gpu_valid_count
       (Notebook.run_cells
          (Notebook.cells_before_grid_search Notebook.sample_accept
             Notebook.sample_build Notebook.sample_gpu_valid_count
             Notebook.sample_outcome)
          Notebook.sample_kernel).2).1
     = Err (Notebook.NameError "trials").
Proof.
  split; [vm_compute; reflexivity|].
  apply (grid_search_cell_name_error Notebook.sample_accept
           Notebook.sample_build Notebook.sample_gpu_valid_count
           Notebook.sample_outcome
           {| Xm.next_id := 1; Xm.records := ∅; Xm.reachable := true |}
           {| Xm.job_state := fun _ => Xm.Pending; Xm.next_job := 0;
              Xm.network_log := [] |}).
  vm_compute. reflexivity.
Defined.

(** * Part III. Further properties of the code *)

(** ** The sweep expansion *)

Section SweepMore.
Import Py Sweep.
Context {V : Type}.

Lemma zip_cons (k : string) (ks : list string) (y : V) (x : list V) :
  zip (k :: ks) (y :: x) = (k, y) :: zip ks x.
Proof. reflexivity. Qed.

(** Over a dict the [dict(...)] call has nothing to merge: a combination
    is the keys zipped with a tuple of the product. *)
Lemma expand_wf_zip (inputs : dict (list V)) :
  dict_wf inputs ->
  expand inputs = map (zip (keys inputs)) (product (values inputs)).
Proof.
  intros Hwf. unfold expand. apply map_ext_in. intros x Hx.
  apply product_item_length in Hx.
  assert (Hlen : length x = length (keys inputs)).
  { unfold keys, values in *. by rewrite length_map in *. }
  apply dict_of_pairs_wf. unfold dict_wf. by rewrite keys_zip.
Qed.

Lemma dict_wf_cons_inv (k : string) (pool : list V) (rest : dict (list V)) :
  dict_wf ((k, pool) :: rest) -> dict_wf rest.
Proof. unfold dict_wf, keys. simpl. by inversion 1. Qed.

Lemma expand_cons_wf (k : string) (pool : list V) (rest : dict (list V)) :
  dict_wf ((k, pool) :: rest) ->
  expand ((k, pool) :: rest)
  = flat_map (fun y => map (cons (k, y)) (expand rest)) pool.
Proof.
  intros Hwf. pose proof (dict_wf_cons_inv _ _ _ Hwf) as Hrest.
  rewrite (expand_wf_zip _ Hwf), (expand_wf_zip _ Hrest).
  unfold keys, values. simpl map. rewrite product_cons.
  rewrite map_flat_map_comm. apply flat_map_ext. intros y.
  rewrite !map_map. apply map_ext. intros x. apply zip_cons.
Qed.

Lemma expand_nil : expand (@nil (string * list V)) = [[]].
Proof. reflexivity. Qed.

Lemma dict_wf_app_inv (d1 d2 : dict (list V)) :
  dict_wf (d1 ++ d2) -> dict_wf d1 /\ dict_wf d2.
Proof.
  unfold dict_wf, keys. rewrite map_app. intros H. split.
  - by apply NoDup_app_remove_r in H.
  - by apply NoDup_app_remove_l in H.
Qed.

Lemma expand_app_wf (d1 d2 : dict (list V)) :
  dict_wf (d1 ++ d2) ->
  expand (d1 ++ d2)
  = flat_map (fun a => map (app a) (expand d2)) (expand d1).
Proof.
  induction d1 as [|[k pool] d1 IH]; intros Hwf.
  - rewrite expand_nil. simpl. rewrite app_nil_r.
    symmetry. apply map_id.
  - destruct (dict_wf_app_inv ((k, pool) :: d1) d2 Hwf) as [Hwf1 _].
    rewrite <- app_comm_cons in Hwf |- *.
    pose proof (dict_wf_cons_inv k pool (d1 ++ d2) Hwf) as Hrest.
    rewrite (expand_cons_wf _ _ _ Hwf), (expand_cons_wf _ _ _ Hwf1).
    rewrite (IH Hrest), flat_map_flat_map.
    apply flat_map_ext. intros y.
    rewrite map_flat_map_comm, flat_map_map_comm.
    apply flat_map_ext. intros a. by rewrite map_map.
Qed.

(** A tuple is in the product exactly when each of its items is in the
    pool of its position. *)
Lemma product_in (pools : list (list V)) (x : list V) :
  In x (product pools) <-> Forall2 (fun v pool => In v pool) x pools.
Proof.
  revert x. induction pools as [|pool pools IH]; intros x.
  - rewrite product_nil. split.
    + intros [<-|[]]. constructor.
    + inversion 1. by left.
  - rewrite product_cons, in_flat_map. split.
    + intros (y & Hy & (x' & <- & Hx')%in_map_iff).
      constructor; [done|]. by apply IH.
    + inversion 1 as [|y pool' x' pools' Hy Hx']; subst.
      exists y. split; [done|]. apply in_map. by apply IH.
Qed.

Lemma expand_in_wf (inputs : dict (list V)) (d : dict V) :
  dict_wf inputs ->
  In d (expand inputs)
  <-> Forall2 (fun kv kp => kv.1 = kp.1 /\ In kv.2 kp.2) d inputs.
Proof.
  revert d. induction inputs as [|[k pool] rest IH]; intros d Hwf.
  - rewrite expand_nil. split.
    + intros [<-|[]]. constructor.
    + inversion 1. by left.
  - pose proof (dict_wf_cons_inv _ _ _ Hwf) as Hrest.
    rewrite (expand_cons_wf _ _ _ Hwf), in_flat_map. split.
    + intros (y & Hy & (d' & <- & Hd')%in_map_iff).
      constructor; [done|]. by apply IH.
    + inversion 1 as [|[k' y] kp d' rest' [Hk Hy] Hd']; subst.
      simpl in Hk, Hy. subst k'.
      exists y. split; [done|]. apply in_map. by apply IH.
Qed.

(** *** No combination occurs twice *)

Lemma NoDup_map_cons {A} (y : A) (l : list (list A)) :
  List.NoDup l -> List.NoDup (map (cons y) l).
Proof.
  induction 1 as [|x l Hx Hl IH]; simpl; constructor; [|done].
  intros (x' & [= <-] & Hx')%in_map_iff. done.
Qed.

Lemma NoDup_flat_map_cons {A} (pool : list A) (l : list (list A)) :
  List.NoDup pool -> List.NoDup l ->
  List.NoDup (flat_map (fun y => map (cons y) l) pool).
Proof.
  intros Hpool Hl. induction Hpool as [|y pool Hy Hpool IH]; simpl.
  - constructor.
  - apply List.NoDup_app; [by apply NoDup_map_cons | done |].
    intros x (x1 & <- & _)%in_map_iff.
    intros (y' & Hy' & (x2 & [= <- _] & _)%in_map_iff)%in_flat_map. done.
Qed.

Lemma product_NoDup (pools : list (list V)) :
  Forall (fun pool => List.NoDup pool) pools -> List.NoDup (product pools).
Proof.
  induction 1 as [|pool pools Hpool Hpools IH].
  - rewrite product_nil. constructor; [by intros []|constructor].
  - rewrite product_cons. by apply NoDup_flat_map_cons.
Qed.

Lemma zip_inj (ks : list string) (x x' : list V) :
  length x = length ks -> length x' = length ks ->
  zip ks x = zip ks x' -> x = x'.
Proof.
  revert x x'. induction ks as [|k ks IH]; intros [|y x] [|y' x']; simpl;
    try done.
  intros [= Hx] [= Hx'] [= <- Hz]. by rewrite (IH x x').
Qed.

Lemma NoDup_map_in_inj {A B} (f : A -> B) (l : list A) :
  (forall a b, In a l -> In b l -> f a = f b -> a = b) ->
  List.NoDup l -> List.NoDup (map f l).
Proof.
  intros Hf. induction 1 as [|a l Ha Hl IH]; simpl; constructor.
  - intros (b & Hb & Hin)%in_map_iff.
    assert (b = a) as -> by (apply Hf; [by right | by left | done]). done.
  - apply IH. intros b c Hb Hc. apply Hf; by right.
Qed.

Lemma expand_NoDup_wf (inputs : dict (list V)) :
  dict_wf inputs ->
  Forall (fun pool => List.NoDup pool) (values inputs) ->
  List.NoDup (expand inputs).
Proof.
  intros Hwf Hpools. rewrite (expand_wf_zip _ Hwf).
  apply NoDup_map_in_inj; [|by apply product_NoDup].
  intros x x' Hx%product_item_length Hx'%product_item_length.
  apply zip_inj; unfold keys, values in *; by rewrite length_map in *.
Qed.

End SweepMore.

Ltac solve_NoDup :=
  repeat (constructor; [simpl; intuition discriminate|]); constructor.

(** X1.  Over a dict, the combinations are exactly the mappings that give
    every parameter of the input, in the input's key order, one value of
    its value sequence. *)
Theorem expand_membership {V : Type}
    (inputs : Py.dict (list V)) (d : Py.dict V) :
  Py.dict_wf inputs ->
  In d (Sweep.expand inputs)
  <-> Forall2 (fun kv kp => kv.1 = kp.1 /\ In kv.2 kp.2) d inputs.
Proof. apply expand_in_wf. Qed.

Lemma expand_membership_witness :
  In [("batch_size", Py.VInt 128); ("learning_rate", Py.VFloat "0.01")]
    (Sweep.expand Sweep.inputs).
Proof.
  apply (expand_membership Sweep.inputs
           [("batch_size", Py.VInt 128); ("learning_rate", Py.VFloat "0.01")]).
  - unfold Py.dict_wf. simpl. solve_NoDup.
  - repeat constructor; simpl; tauto.
Defined.

(** X2.  Over a dict, the first parameter varies slowest: the expansion
    runs through the values of the first parameter in order and, for each,
    through the whole expansion of the remaining parameters. *)
Theorem expand_first_key_slowest {V : Type}
    (k : string) (pool : list V) (rest : Py.dict (list V)) :
  Py.dict_wf ((k, pool) :: rest) ->
  Sweep.expand ((k, pool) :: rest)
  = flat_map (fun y => map (cons (k, y)) (Sweep.expand rest)) pool.
Proof. apply expand_cons_wf. Qed.

Lemma expand_first_key_slowest_witness :
  Sweep.expand [("a", [1; 2]); ("b", [3; 4; 5])]
  = flat_map (fun y => map (cons ("a", y)) (Sweep.expand [("b", [3; 4; 5])]))
      [1; 2].
Proof.
  apply (expand_first_key_slowest "a" [1; 2] [("b", [3; 4; 5])]).
  unfold Py.dict_wf. simpl. solve_NoDup.
Defined.

(** X3.  The expansion of a dict that is two dicts put one after the
    other consists of every combination of the first followed by every
    combination of the second, the second varying fastest. *)
Theorem sweep_of_appended_dicts {V : Type} (d1 d2 : Py.dict (list V)) :
  Py.dict_wf (d1 ++ d2) ->
  Sweep.expand (d1 ++ d2)
  = flat_map (fun a => map (app a) (Sweep.expand d2)) (Sweep.expand d1).
Proof. apply expand_app_wf. Qed.

Lemma sweep_of_appended_dicts_witness :
  Sweep.expand ([("a", [1; 2]); ("b", [3])] ++ [("c", [4; 5])])
  = flat_map (fun a => map (app a) (Sweep.expand [("c", [4; 5])]))
      (Sweep.expand [("a", [1; 2]); ("b", [3])]).
Proof.
  apply (sweep_of_appended_dicts [("a", [1; 2]); ("b", [3])] [("c", [4; 5])]).
  unfold Py.dict_wf. simpl. solve_NoDup.
Defined.

(** X4.  Over a dict whose value sequences hold no value twice, no
    combination occurs twice in the expansion. *)
Theorem sweep_no_repeats {V : Type} (inputs : Py.dict (list V)) :
  Py.dict_wf inputs ->
  Forall (fun pool => List.NoDup pool) (Py.values inputs) ->
  List.NoDup (Sweep.expand inputs).
Proof. apply expand_NoDup_wf. Qed.

Lemma sweep_no_repeats_witness : List.NoDup Sweep.hyperparameters.
Proof.
  apply (sweep_no_repeats Sweep.inputs).
  - unfold Py.dict_wf. simpl. solve_NoDup.
  - repeat (constructor; [solve_NoDup|]). constructor.
Defined.

(** X5.  For any two keys and any two lists, the explicit two-list
    construction of the end-to-end cell never fails at the unpacking of a
    tuple, and yields the generic expansion of the two-key mapping. *)
Theorem expand_pair_generic {V : Type} (k1 k2 : string) (l1 l2 : list V) :
  Sweep.expand_pair k1 k2 l1 l2 = Ok (Sweep.expand [(k1, l1); (k2, l2)]).
Proof. apply expand_pair_expand. Qed.

(** ** The wrapper script *)

(** X6.  When the arguments hold no pattern character and the output of
    the helper holds no [*] and no [?], then, whatever the helper does, it
    receives "-c" followed by the white-space separated words of the
    arguments, and the entry point receives the white-space separated
    words of what the helper printed with every [[], []] and [,] deleted:
    expanding the array [ARGS] unquoted changes nothing further. *)
Theorem entrypoint_receives_words
    (pathname_expansion : string -> list string)
    (source : Wrapper.environ -> Wrapper.environ)
    (helper : Wrapper.environ -> list string -> string)
    (env : Wrapper.environ) (args : list string) :
  (forall w, Wrapper.is_pattern w = false -> pathname_expansion w = [w]) ->
  Forall (fun w => Wrapper.is_pattern w = false) args ->
  Wrapper.string_forallb Wrapper.no_wild
    (helper (source env) ("-c" :: flat_map Wrapper.word_split args)) = true ->
  Wrapper.wrapped_entrypoint pathname_expansion source helper env args
  = Wrapper.word_split
      (Wrapper.tr_d Wrapper.deleted
         (helper (source env) ("-c" :: flat_map Wrapper.word_split args))).
Proof.
  intros Hpe Hargs Hout.
  rewrite <- (unquoted_not_pattern pathname_expansion args Hpe Hargs) in *.
  by apply wrapped_entrypoint_words.
Qed.

Lemma entrypoint_receives_words_witness :
  Wrapper.wrapped_entrypoint Wrapper.no_match (fun e => e)
    (Wrapper.print_args_then_flags (fun _ => ["--worker0=10.0.0.2:2222"]))
    ∅ ["--dims=64,32"; "--name=a b"]
  = Wrapper.word_split
      (Wrapper.tr_d Wrapper.deleted
         (Wrapper.print_args_then_flags
            (fun _ => ["--worker0=10.0.0.2:2222"]) ∅
            ("-c" :: flat_map Wrapper.word_split
                       ["--dims=64,32"; "--name=a b"]))).
Proof.
  apply (entrypoint_receives_words Wrapper.no_match (fun e => e)
           (Wrapper.print_args_then_flags
              (fun _ => ["--worker0=10.0.0.2:2222"]))
           ∅ ["--dims=64,32"; "--name=a b"]).
  - intros w _. reflexivity.
  - repeat constructor.
  - reflexivity.
Defined.

(** X7.  Whenever what the helper printed holds no [*] and no [?], no
    argument that the entry point receives is empty, holds white space,
    or holds one of [[], []] and [,]. *)
Theorem entrypoint_arguments_shape
    (pathname_expansion : string -> list string)
    (source : Wrapper.environ -> Wrapper.environ)
    (helper : Wrapper.environ -> list string -> string)
    (env : Wrapper.environ) (args : list string) :
  (forall w, Wrapper.is_pattern w = false -> pathname_expansion w = [w]) ->
  Wrapper.string_forallb Wrapper.no_wild
    (helper (source env)
       ("-c" :: Wrapper.unquoted pathname_expansion args)) = true ->
  Forall
    (fun w => Wrapper.not_empty w = true
              /\ Wrapper.string_forallb Wrapper.no_ifs w = true
              /\ Wrapper.string_forallb Wrapper.kept w = true)
    (Wrapper.wrapped_entrypoint pathname_expansion source helper env args).
Proof.
  intros Hpe Hout.
  rewrite (wrapped_entrypoint_words pathname_expansion source helper env args
             Hpe Hout).
  set (out := Wrapper.tr_d Wrapper.deleted _).
  pose proof (word_split_words out) as Hw.
  pose proof (word_split_forallb Wrapper.kept out
                (tr_d_deletes _)) as Hk.
  induction Hw as [|w ws [Hne Hifs] Hws IH]; [constructor|].
  inversion Hk as [|? ? Hkw Hkws]; subst. constructor; [done|].
  by apply IH.
Qed.

Lemma entrypoint_arguments_shape_witness :
  Forall
    (fun w => Wrapper.not_empty w = true
              /\ Wrapper.string_forallb Wrapper.no_ifs w = true
              /\ Wrapper.string_forallb Wrapper.kept w = true)
    (Wrapper.wrapped_entrypoint Wrapper.no_match (fun e => e)
       (Wrapper.print_args_then_flags (fun _ => ["--worker0=10.0.0.2:2222"]))
       ∅ ["--dims=64,32"; "--name=a b"; ""]).
Proof.
  apply (entrypoint_arguments_shape Wrapper.no_match (fun e => e)
           (Wrapper.print_args_then_flags
              (fun _ => ["--worker0=10.0.0.2:2222"]))
           ∅ ["--dims=64,32"; "--name=a b"; ""]).
  - intros w _. reflexivity.
  - reflexivity.
Defined.

(** X8.  The script cannot tell one argument that holds spaces from
    several arguments: called with the arguments joined by single spaces
    into one, it passes the entry point what it passes for the arguments
    given one by one. *)
Theorem wrapped_entrypoint_joined_args
    (pathname_expansion : string -> list string)
    (source : Wrapper.environ -> Wrapper.environ)
    (helper : Wrapper.environ -> list string -> string)
    (env : Wrapper.environ) (args : list string) :
  Wrapper.wrapped_entrypoint pathname_expansion source helper env
    [Wrapper.unwords args]
  = Wrapper.wrapped_entrypoint pathname_expansion source helper env args.
Proof.
  unfold Wrapper.wrapped_entrypoint. by rewrite unquoted_unwords.
Qed.

(** X9.  With a helper that prints the arguments and then the flags,
    arguments that hold no white space and no pattern character, and
    flags that hold no white space, no [*] and no [?], reach the entry
    point in order, each with its [[], []] and [,] deleted, and those of
    which nothing is left are dropped. *)
Theorem wrapped_entrypoint_deletes
    (pathname_expansion : string -> list string)
    (source : Wrapper.environ -> Wrapper.environ)
    (address_flags : Wrapper.environ -> list string)
    (env : Wrapper.environ) (args : list string) :
  (forall w, Wrapper.is_pattern w = false -> pathname_expansion w = [w]) ->
  Forall (fun w => Wrapper.string_forallb Wrapper.no_ifs w = true
                   /\ Wrapper.is_pattern w = false) args ->
  Forall (fun w => Wrapper.string_forallb Wrapper.no_ifs w = true
                   /\ Wrapper.string_forallb Wrapper.no_wild w = true)
    (address_flags (source env)) ->
  Wrapper.wrapped_entrypoint pathname_expansion source
    (Wrapper.print_args_then_flags address_flags) env args
  = List.filter Wrapper.not_empty
      (map (Wrapper.tr_d Wrapper.deleted) (args ++ address_flags (source env))).
Proof. apply entrypoint_filtered_words. Qed.

Lemma wrapped_entrypoint_deletes_witness :
  Wrapper.wrapped_entrypoint Wrapper.no_match (fun e => e)
    (Wrapper.print_args_then_flags (fun _ => ["--worker0=[10.0.0.2:2222]"]))
    ∅ ["--dims=64,32"; ","; "--lr=0.01"]
  = List.filter Wrapper.not_empty
      (map (Wrapper.tr_d Wrapper.deleted)
         (["--dims=64,32"; ","; "--lr=0.01"]
          ++ ["--worker0=[10.0.0.2:2222]"])).
Proof.
  apply (wrapped_entrypoint_deletes Wrapper.no_match (fun e => e)
           (fun _ => ["--worker0=[10.0.0.2:2222]"]) ∅
           ["--dims=64,32"; ","; "--lr=0.01"]).
  - intros w _. reflexivity.
  - repeat constructor.
  - repeat constructor.
Defined.

(** ** The notebook *)

Section NotebookMore.
Import Py Xm Notebook.
Context {native : Type}.
Variable status_of_native : backend_tag -> native -> Status.
Variable accept : backend_tag -> Job -> result launch_error native.
Variable build : ExecutableSpec -> ExecutorSpec -> option string.
Variable gpu_valid_count : Requirements.accelerator -> Z -> bool.
Variable outcome : nat -> string -> result exception object.

Abbreviation kernel' := (Notebook.kernel (native := native)).
Abbreviation M' := (Notebook.M (native := native)).

(** *** Statements that read no unbound name *)

Lemma bound_same_ns (names : list string) (k k' : kernel') :
  user_ns k' = user_ns k -> bound names k -> bound names k'.
Proof. intros Hns Hk n Hn. rewrite Hns. by apply Hk. Qed.

Lemma bound_subset (names names' : list string) (k : kernel') :
  (forall n, In n names' -> In n names) -> bound names k -> bound names' k.
Proof. intros Hsub Hk n Hn. by apply Hk, Hsub. Qed.

Lemma safe_ret {A} (pre : list string) (a : A) :
  name_safe (native := native) pre pre (ret a).
Proof. by intros k Hk. Qed.

Lemma safe_raise {A} (pre post : list string) (e : exception) :
  is_name_error e = false ->
  name_safe (native := native) pre post (raise (A := A) e).
Proof. by intros He k Hk. Qed.

Lemma safe_bind {A B} (pre mid post : list string) (m : M' A) (f : A -> M' B) :
  name_safe pre mid m -> (forall a, name_safe mid post (f a)) ->
  name_safe pre post (bind m f).
Proof.
  intros Hm Hf k Hk. unfold bind. specialize (Hm k Hk).
  destruct (m k) as [[a|e] k1]; [by apply Hf | done].
Qed.

Lemma safe_weaken {A} (pre post post' : list string) (m : M' A) :
  name_safe pre post m -> (forall n, In n post' -> In n post) ->
  name_safe pre post' m.
Proof.
  intros Hm Hsub k Hk. specialize (Hm k Hk).
  destruct (m k) as [[a|e] k1]; [|done]. by apply (bound_subset post).
Qed.

Lemma safe_strengthen {A} (pre pre' post : list string) (m : M' A) :
  name_safe pre post m -> (forall n, In n pre -> In n pre') ->
  name_safe pre' post m.
Proof. intros Hm Hsub k Hk. apply Hm. by apply (bound_subset pre'). Qed.

Lemma safe_load (pre : list string) (name : string) :
  In name pre -> name_safe (native := native) pre pre (load name).
Proof.
  intros Hn k Hk. unfold load. destruct (Hk name Hn) as [o ->]. done.
Qed.

Lemma safe_store (pre : list string) (name : string) (o : object) :
  name_safe (native := native) pre (name :: pre) (store name o).
Proof.
  intros k Hk n [<-|Hn]; simpl.
  - rewrite lookup_insert_eq. by eexists.
  - destruct (decide (name = n)) as [->|Hne].
    + rewrite lookup_insert_eq. by eexists.
    + rewrite lookup_insert_ne by done. by apply Hk.
Qed.

Lemma safe_outside (pre : list string) (label : string) :
  (forall n l e, outcome n l = Err e -> is_name_error e = false) ->
  name_safe (native := native) pre pre (outside outcome label).
Proof.
  intros Hout k Hk. unfold outside.
  destruct (outcome (calls k) label) as [o|e] eqn:E; [done|].
  by apply (Hout _ _ _ E).
Qed.

Hypothesis outcome_no_name_error :
  forall n l e, outcome n l = Err e -> is_name_error e = false.

Lemma safe_same_ns {A} (pre : list string) (m : M' A) :
  (forall k, user_ns (m k).2 = user_ns k) ->
  (forall k e, (m k).1 = Err e -> is_name_error e = false) ->
  name_safe pre pre m.
Proof.
  intros Hns He k Hk. specialize (Hns k). specialize (He k).
  destruct (m k) as [[a|e] k1]; simpl in *.
  - by apply (bound_same_ns pre k).
  - by apply He.
Qed.

Lemma safe_shell (pre : list string) (command : string) :
  name_safe (native := native) pre pre (shell command).
Proof. by apply safe_same_ns. Qed.

Lemma safe_print (pre : list string) (os : list object) :
  name_safe (native := native) pre pre (print os).
Proof. by apply safe_same_ns. Qed.

Lemma safe_import (pre : list string) (qualified name : string) :
  name_safe (native := native) pre (name :: pre)
    (import outcome qualified name).
Proof.
  eapply safe_bind; [by apply safe_outside|]. intros _. apply safe_store.
Qed.

Lemma safe_as_module (pre : list string) (q : string) (o : object) :
  name_safe (native := native) pre pre (as_module q o).
Proof.
  destruct o; try by apply safe_raise. simpl.
  destruct (String.eqb name q); [apply safe_ret | by apply safe_raise].
Qed.

Lemma safe_as_experiment (pre : list string) (attr : string) (o : object) :
  name_safe (native := native) pre pre (as_experiment attr o).
Proof. destruct o; (apply safe_ret || by apply safe_raise). Qed.

Lemma safe_as_executable (pre : list string) (o : object) :
  name_safe (native := native) pre pre (as_executable o).
Proof. destruct o; (apply safe_ret || by apply safe_raise). Qed.

Lemma safe_as_executor (pre : list string) (o : object) :
  name_safe (native := native) pre pre (as_executor o).
Proof. destruct o; (apply safe_ret || by apply safe_raise). Qed.

Lemma safe_as_dict (pre : list string) (o : object) :
  name_safe (native := native) pre pre (as_dict o).
Proof.
  destruct o as [v| | | | | |]; try by apply safe_raise.
  destruct v; (apply safe_ret || by apply safe_raise).
Qed.

Lemma safe_as_items (pre : list string) (o : object) :
  name_safe (native := native) pre pre (as_items o).
Proof.
  destruct o as [v| | | | | |]; try by apply safe_raise.
  destruct v; (apply safe_ret || by apply safe_raise).
Qed.

Lemma safe_as_pools (pre : list string) (kvs : dict value) :
  name_safe (native := native) pre pre (as_pools kvs).
Proof.
  induction kvs as [|[key v] kvs IH]; simpl; [apply safe_ret|].
  destruct v; try by apply safe_raise.
  eapply safe_bind; [exact IH|]. intros rest. apply safe_ret.
Qed.

Lemma safe_create (pre : list string) (title : string) :
  In "xm_local" pre ->
  name_safe (native := native) pre pre (xm_local_create_experiment title).
Proof.
  intros Hin. eapply safe_bind; [by apply safe_load|]. intros m.
  eapply safe_bind; [apply safe_as_module|]. intros _.
  apply safe_same_ns.
  - intros k. by destruct (create_experiment title (registry k)) as [[e|err] reg].
  - intros k e.
    destruct (create_experiment title (registry k)) as [[e'|err] reg];
      simpl; [done|]. by intros [= <-].
Qed.

Lemma safe_experiment_add (pre : list string) (id : nat) (j : Job) :
  name_safe (native := native) pre pre (experiment_add id j).
Proof.
  apply safe_same_ns.
  - intros k. unfold experiment_add. by destruct (heap k !! id).
  - intros k e. unfold experiment_add.
    destruct (heap k !! id); simpl; [done|]. by intros [= <-].
Qed.

Lemma exit_same_ns (id : nat) (k : kernel') :
  user_ns (experiment_exit accept gpu_valid_count id k).2 = user_ns k.
Proof.
  unfold experiment_exit. destruct (heap k !! id) as [e|]; [|done].
  by destruct (close accept gpu_valid_count e (world k)).
Qed.

Lemma safe_experiment_package (pre : list string) (id : nat)
    (s : ExecutableSpec) (xs : ExecutorSpec) :
  name_safe (native := native) pre pre (experiment_package build id s xs).
Proof.
  apply safe_same_ns.
  - intros k. unfold experiment_package.
    by destruct (package_one build s xs (world k)) as [[x|err] w'].
  - intros k e. unfold experiment_package.
    destruct (package_one build s xs (world k)) as [[x|err] w']; simpl;
      [done|]. by intros [= <-].
Qed.

Lemma safe_async_with (pre post : list string) (title name : string)
    (body : M' unit) :
  In "xm_local" pre ->
  name_safe (name :: pre) post body ->
  name_safe pre post
    (async_with_experiment accept gpu_valid_count title name body).
Proof.
  intros Hin Hbody. eapply safe_bind; [by apply safe_create|]. intros id.
  eapply safe_bind; [apply safe_store|]. intros _.
  intros k Hk. specialize (Hbody k Hk). destruct (body k) as [r k1].
  pose proof (exit_same_ns id k1) as Hns.
  destruct (experiment_exit accept gpu_valid_count id k1) as [r2 k2].
  destruct r as [[]|e]; [|done]. by apply (bound_same_ns post k1).
Qed.

Lemma safe_for_in (pre : list string) (name : string) (items : list value)
    (body : M' unit) :
  name_safe (name :: pre) (name :: pre) body ->
  name_safe pre pre (for_in name items body).
Proof.
  intros Hbody. induction items as [|x items IH]; simpl.
  - apply safe_ret.
  - eapply safe_bind; [apply safe_store|]. intros _.
    eapply safe_bind; [exact Hbody|]. intros _.
    apply (safe_strengthen pre); [exact IH|]. intros n Hn. by right.
Qed.

Ltac in_names := simpl; tauto.

Ltac safe_step :=
  lazymatch goal with
  | |- name_safe _ _ (bind _ _) => eapply safe_bind; [|intros ?]
  | |- name_safe _ _ (ret _) => apply safe_ret
  | |- name_safe _ _ (raise _) => apply safe_raise; reflexivity
  | |- name_safe _ _ (load _) => apply safe_load; in_names
  | |- name_safe _ _ (store _ _) => apply safe_store
  | |- name_safe _ _ (outside _ _) =>
      apply safe_outside; exact outcome_no_name_error
  | |- name_safe _ _ (shell _) => apply safe_shell
  | |- name_safe _ _ (print _) => apply safe_print
  | |- name_safe _ _ (import _ _ _) => apply safe_import
  | |- name_safe _ _ (as_module _ _) => apply safe_as_module
  | |- name_safe _ _ (as_experiment _ _) => apply safe_as_experiment
  | |- name_safe _ _ (as_executable _) => apply safe_as_executable
  | |- name_safe _ _ (as_executor _) => apply safe_as_executor
  | |- name_safe _ _ (as_dict _) => apply safe_as_dict
  | |- name_safe _ _ (as_items _) => apply safe_as_items
  | |- name_safe _ _ (as_pools _) => apply safe_as_pools
  | |- name_safe _ _ (experiment_add _ _) => apply safe_experiment_add
  | |- name_safe _ _ (experiment_package _ _ _ _) =>
      apply safe_experiment_package
  | |- name_safe _ _ (async_with_experiment _ _ _ _ _) =>
      apply safe_async_with; [in_names|]
  | |- name_safe _ _ (for_in _ _ _) => apply safe_for_in
  | |- name_safe _ _ (add_job _ _) => unfold add_job
  | |- name_safe _ _ caip_t4 => unfold caip_t4
  | |- name_safe _ _ (package_cifar10 _ _) => unfold package_cifar10
  | |- name_safe _ _ (match ?x with _ => _ end) => destruct x
  end.

Ltac safe := repeat safe_step.

(** The names the cells above the grid-search cell have bound when they
    all ended normally. *)
Lemma cells_before_grid_search_safe :
  exists post,
    name_safe [] post
      (run_cells
         (cells_before_grid_search accept build gpu_valid_count outcome)).
Proof.
  eexists. unfold cells_before_grid_search. cbn [run_cells].
  unfold cell_license, cell_install, cell_gcp_project, cell_bucket,
    cell_flags, cell_imports, cell_create, cell_package, cell_executor,
    cell_single_job, cell_hyperparameters.
  safe.
Qed.

Lemma cell_end_to_end_safe :
  exists post,
    In "trials" post
    /\ name_safe ["xm"; "xm_local"; "os"; "itertools"] post
         (cell_end_to_end accept build gpu_valid_count outcome).
Proof.
  eexists. split; cycle 1.
  - unfold cell_end_to_end. safe.
  - in_names.
Qed.

(** *** The loop of the grid-search cell *)

Lemma load_ok (name : string) (o : object) (k : kernel') :
  user_ns k !! name = Some o -> load name k = (Ok o, k).
Proof. intros H. unfold load. by rewrite H. Qed.

Lemma add_job_ok (id : nat) (x : Executable) (ex : Executor)
    (d : dict value) (e : Experiment) (k : kernel') :
  user_ns k !! "experiment" = Some (ExperimentObj id) ->
  launch_ready x ex k ->
  user_ns k !! "hparams" = Some (Data (VDict d)) ->
  heap k !! id = Some e ->
  add_job (bind (load "executor") (fun ex => as_executor ex))
    (bind (load "hparams") (fun h => as_dict h)) k
  = (Ok tt, with_experiment id (add (job_of x ex d) e).2 k).
Proof.
  intros He (Hxm & Hx & Hex) Hh Hheap. unfold add_job.
  rewrite (bind_ok _ _ k k (ExperimentObj id)) by (by apply load_ok).
  rewrite (bind_ok _ _ k k id) by done.
  rewrite (bind_ok _ _ k k (Imported "xmanager.xm")) by (by apply load_ok).
  rewrite (bind_ok _ _ k k tt) by done.
  rewrite (bind_ok _ _ k k (ExecutableObj x)) by (by apply load_ok).
  rewrite (bind_ok _ _ k k x) by done.
  rewrite (bind_ok _ _ k k ex)
    by (by rewrite (bind_ok _ _ k k (ExecutorObj ex)) by (by apply load_ok)).
  rewrite (bind_ok _ _ k k d)
    by (by rewrite (bind_ok _ _ k k (Data (VDict d))) by (by apply load_ok)).
  unfold experiment_add. by rewrite Hheap.
Qed.

Lemma grid_loop (id : nat) (x : Executable) (ex : Executor)
    (ds : list (dict value)) (k : kernel') (e : Experiment) :
  user_ns k !! "experiment" = Some (ExperimentObj id) ->
  launch_ready x ex k ->
  heap k !! id = Some e ->
  exists k',
    for_in "hparams" (map dict_object ds)
      (add_job (bind (load "executor") (fun ex => as_executor ex))
         (bind (load "hparams") (fun h => as_dict h))) k
    = (Ok tt, k')
    /\ heap k' = <[id := add_all x ex ds e]> (heap k)
    /\ world k' = world k.
Proof.
  revert k e. induction ds as [|d ds IH]; intros k e He Hr Hheap.
  - exists k. split; [done|]. split; [|done].
    simpl. symmetry. by apply insert_id.
  - cbn [map for_in].
    rewrite (bind_ok _ _ k (store "hparams" (Data (VDict d)) k).2 tt) by done.
    set (k1 := (store "hparams" (Data (VDict d)) k).2).
    assert (He1 : user_ns k1 !! "experiment" = Some (ExperimentObj id))
      by (subst k1; simpl; by rewrite lookup_insert_ne).
    assert (Hr1 : launch_ready x ex k1).
    { destruct Hr as (Hxm & Hx & Hex). subst k1. unfold launch_ready. simpl.
      by rewrite !lookup_insert_ne. }
    assert (Hh1 : user_ns k1 !! "hparams" = Some (Data (VDict d)))
      by (subst k1; simpl; by rewrite lookup_insert_eq).
    rewrite (bind_ok _ _ k1 _ tt (add_job_ok id x ex d e k1 He1 Hr1 Hh1 Hheap)).
    set (k2 := with_experiment id (add (job_of x ex d) e).2 k1).
    destruct (IH k2 (add (job_of x ex d) e).2) as (k' & Hrun & Hheap' & Hw).
    + done.
    + done.
    + subst k2. simpl. by rewrite lookup_insert_eq.
    + exists k'. split; [done|]. split; [|done].
      rewrite Hheap'. subst k2 k1. simpl. by rewrite insert_insert_eq.
Qed.

Lemma add_all_units (x : Executable) (ex : Executor) (ds : list (dict value))
    (e : Experiment) :
  map unit_index (work_units (add_all x ex ds e))
  = map unit_index (work_units e)
    ++ seq (length (work_units e)) (length ds)
  /\ map unit_job (work_units (add_all x ex ds e))
     = map unit_job (work_units e) ++ map (job_of x ex) ds.
Proof.
  revert e. induction ds as [|d ds IH]; intros e.
  - simpl. by rewrite !app_nil_r.
  - unfold add_all in *. cbn [fold_left].
    destruct (IH (add (job_of x ex d) e).2) as [Hi Hj].
    rewrite Hi, Hj. simpl. rewrite !map_app, length_app. simpl.
    rewrite <- !app_assoc. simpl. by rewrite Nat.add_1_r.
Qed.

Lemma launch_unit_job (u : WorkUnit) (w : World (native := native)) :
  unit_job (launch_unit accept gpu_valid_count u w).1 = unit_job u.
Proof.
  unfold launch_unit. destruct (unit_launch u); [|done..].
  by destruct (launch accept gpu_valid_count (unit_job u) w) as [[h|err] w'].
Qed.

Lemma launch_all_units (us : list WorkUnit) (w : World (native := native)) :
  map unit_index (launch_all accept gpu_valid_count us w).1
  = map unit_index us
  /\ map unit_job (launch_all accept gpu_valid_count us w).1
     = map unit_job us.
Proof.
  revert w. induction us as [|u us IH]; intros w; [done|]. cbn [launch_all].
  pose proof (launch_unit_index accept gpu_valid_count u w) as Hi.
  pose proof (launch_unit_job u w) as Hj.
  destruct (launch_unit accept gpu_valid_count u w) as [u' w1].
  destruct (IH w1) as [Hi' Hj'].
  destruct (launch_all accept gpu_valid_count us w1) as [us' w2].
  simpl in *. by rewrite Hi, Hj, Hi', Hj'.
Qed.

Lemma grid_search_adds (x : Executable) (ex : Executor)
    (ds : list (dict value)) (k : kernel') :
  ready k -> launch_ready x ex k ->
  user_ns k !! "trials" = Some (Data (VList (map dict_object ds))) ->
  (cell_grid_search accept gpu_valid_count k).1 = Ok tt
  /\ exists e,
       heap (cell_grid_search accept gpu_valid_count k).2
         !! next_id (registry k) = Some e
       /\ state e = Closed
       /\ map unit_index (work_units e) = seq 0 (length ds)
       /\ map unit_job (work_units e) = map (job_of x ex) ds.
Proof.
  intros Hready Hr Ht. unfold cell_grid_search.
  rewrite (async_with_ready accept gpu_valid_count _ _ _ k Hready).
  set (id := next_id (registry k)).
  set (k0 := entered "experiment" "cifar10" k).
  assert (He0 : user_ns k0 !! "experiment" = Some (ExperimentObj id))
    by (subst k0; simpl; by rewrite lookup_insert_eq).
  assert (Hr0 : launch_ready x ex k0).
  { destruct Hr as (Hxm & Hx & Hex). subst k0. unfold launch_ready. simpl.
    by rewrite !lookup_insert_ne. }
  assert (Ht0 : user_ns k0 !! "trials"
                = Some (Data (VList (map dict_object ds))))
    by (subst k0; simpl; by rewrite lookup_insert_ne).
  assert (Hh0 : heap k0 !! id = Some (new_experiment id "cifar10"))
    by (subst k0 id; simpl; by rewrite lookup_insert_eq).
  destruct (grid_loop id x ex ds k0 _ He0 Hr0 Hh0) as (k' & Hrun & Hheap & Hw).
  rewrite (bind_ok _ _ k0 k0 _ (load_ok _ _ _ Ht0)).
  rewrite (bind_ok _ _ k0 k0 (map dict_object ds)) by done.
  rewrite Hrun. cbn [fst snd]. split; [done|].
  unfold experiment_exit. rewrite Hheap, lookup_insert_eq.
  set (e := add_all x ex ds (new_experiment id "cifar10")).
  unfold close.
  destruct (launch_all_units (work_units e) (world k')) as [Hi Hj].
  destruct (launch_all accept gpu_valid_count (work_units e) (world k'))
    as [us w'].
  eexists. cbn [heap snd]. rewrite lookup_insert_eq. split; [done|].
  cbn [state work_units fst] in *. split; [done|].
  destruct (add_all_units x ex ds (new_experiment id "cifar10")) as [Hai Haj].
  fold e in Hai, Haj. simpl in Hai, Haj. by rewrite Hi, Hj, Hai, Haj.
Qed.

End NotebookMore.

(** X10.  When no call into a library raises [NameError] itself, the
    cells above the grid-search cell, run in their written order from a
    new kernel, do not raise [NameError]: each name a cell reads was bound
    by the cell or by one above it. *)
Theorem cells_before_grid_search_no_name_error {native : Type}
    (accept : Xm.backend_tag -> Xm.Job -> result Xm.launch_error native)
    (build : Xm.ExecutableSpec -> Xm.ExecutorSpec -> option string)
    (gpu_valid_count : Requirements.accelerator -> Z -> bool)
    (outcome : nat -> string -> result Notebook.exception Notebook.object)
    (reg : Xm.Registry) (w : Xm.World (native := native)) (name : string) :
  (forall n l e, outcome n l = Err e -> Notebook.is_name_error e = false) ->
  (Notebook.run_cells
     (Notebook.cells_before_grid_search accept build gpu_valid_count outcome)
     (Notebook.new_kernel reg w)).1
  <> Err (Notebook.NameError name).
Proof.
  intros Hout.
  destruct (cells_before_grid_search_safe accept build gpu_valid_count
              outcome Hout) as [post Hsafe].
  specialize (Hsafe (Notebook.new_kernel reg w)).
  destruct (Notebook.run_cells _ _) as [[[]|e] k]; [done|]. simpl.
  intros [= ->]. discriminate Hsafe. by intros n [].
Qed.

Lemma cells_before_grid_search_no_name_error_witness :
  (Notebook.run_cells
     (Notebook.cells_before_grid_search Notebook.sample_accept
        Notebook.sample_build Notebook.sample_gpu_valid_count
        Notebook.sample_outcome)
     Notebook.sample_kernel).1
  <> Err (Notebook.NameError "experiment").
Proof.
  apply (cells_before_grid_search_no_name_error Notebook.sample_accept
           Notebook.sample_build Notebook.sample_gpu_valid_count
           Notebook.sample_outcome
           {| Xm.next_id := 1; Xm.records := ∅; Xm.reachable := true |}
           {| Xm.job_state := fun _ => Xm.Pending; Xm.next_job := 0;
              Xm.network_log := [] |}
           "experiment").
  intros n l e. unfold Notebook.sample_outcome.
  destruct (String.eqb l "os.path.expanduser"); discriminate.
Defined.

(** X11.  The end-to-end cell needs the imports only: in a kernel where
    [xm], [xm_local], [os] and [itertools] are bound, and when no call into
    a library raises [NameError] itself, the cell does not raise
    [NameError], and [trials] is bound when it ends normally. *)
Theorem cell_end_to_end_self_contained {native : Type}
    (accept : Xm.backend_tag -> Xm.Job -> result Xm.launch_error native)
    (build : Xm.ExecutableSpec -> Xm.ExecutorSpec -> option string)
    (gpu_valid_count : Requirements.accelerator -> Z -> bool)
    (outcome : nat -> string -> result Notebook.exception Notebook.object)
    (k : Notebook.kernel (native := native)) :
  (forall n l e, outcome n l = Err e -> Notebook.is_name_error e = false) ->
  Notebook.bound ["xm"; "xm_local"; "os"; "itertools"] k ->
  (forall name,
      (Notebook.cell_end_to_end accept build gpu_valid_count outcome k).1
      <> Err (Notebook.NameError name))
  /\ ((Notebook.cell_end_to_end accept build gpu_valid_count outcome k).1
      = Ok tt ->
      is_Some
        (Notebook.user_ns
           (Notebook.cell_end_to_end accept build gpu_valid_count outcome k).2
         !! "trials")).
Proof.
  intros Hout Hk.
  destruct (cell_end_to_end_safe accept build gpu_valid_count outcome Hout)
    as (post & Hin & Hsafe).
  specialize (Hsafe k Hk).
  destruct (Notebook.cell_end_to_end _ _ _ _ k) as [[[]|e] k']; simpl.
  - split; [done|]. intros _. by apply Hsafe.
  - split; [|done]. intros name [= ->]. discriminate Hsafe.
Qed.

Lemma cell_end_to_end_self_contained_witness :
  (Notebook.cell_end_to_end Notebook.sample_accept Notebook.sample_build
     Notebook.sample_gpu_valid_count Notebook.sample_outcome
     Notebook.sample_imported).1
  <> Err (Notebook.NameError "executor").
Proof.
  apply (cell_end_to_end_self_contained Notebook.sample_accept
           Notebook.sample_build Notebook.sample_gpu_valid_count
           Notebook.sample_outcome Notebook.sample_imported).
  - intros n l e. unfold Notebook.sample_outcome.
    destruct (String.eqb l "os.path.expanduser"); discriminate.
  - intros n [<-|[<-|[<-|[<-|[]]]]]; vm_compute; eexists; reflexivity.
Defined.

(** X12.  In a kernel where the library is imported, the registry is in
    reach, [executable] and [executor] are bound to an executable and an
    executor and [trials] is bound to a list of dicts, the grid-search cell
    ends normally and leaves a closed experiment that holds one work unit
    for each trial, in the order of the trials and with the indices from 0
    on, each for the job of that executable and executor with the trial
    as its arguments. *)
Theorem grid_search_adds_trials {native : Type}
    (accept : Xm.backend_tag -> Xm.Job -> result Xm.launch_error native)
    (gpu_valid_count : Requirements.accelerator -> Z -> bool)
    (x : Xm.Executable) (ex : Xm.Executor)
    (ds : list (Py.dict Py.value))
    (k : Notebook.kernel (native := native)) :
  Notebook.ready k -> Notebook.launch_ready x ex k ->
  Notebook.user_ns k !! "trials"
  = Some (Notebook.Data (Py.VList (map Notebook.dict_object ds))) ->
  (Notebook.cell_grid_search accept gpu_valid_count k).1 = Ok tt
  /\ exists e,
       Notebook.heap (Notebook.cell_grid_search accept gpu_valid_count k).2
         !! Xm.next_id (Notebook.registry k) = Some e
       /\ Xm.state e = Xm.Closed
       /\ map Xm.unit_index (Xm.work_units e) = seq 0 (length ds)
       /\ map Xm.unit_job (Xm.work_units e) = map (Notebook.job_of x ex) ds.
Proof. apply grid_search_adds. Qed.

Lemma grid_search_adds_trials_witness :
  (Notebook.cell_grid_search Notebook.sample_accept
     Notebook.sample_gpu_valid_count Notebook.sample_after_end_to_end).1
  = Ok tt.
Proof.
  apply (grid_search_adds_trials Notebook.sample_accept
           Notebook.sample_gpu_valid_count Notebook.sample_executable
           Notebook.sample_executor Sweep.hyperparameters
           Notebook.sample_after_end_to_end).
  - split; vm_compute; reflexivity.
  - repeat split; vm_compute; reflexivity.
  - vm_compute. reflexivity.
Defined.
